(** * The author resolution pipeline of
      [src/scopus-author-search-by-au-name-and-subject-area.ts]

    The script is one streaming pipeline:
    input lines -> query records -> fetch results -> tee into
    { archive sink , candidate selector -> tabular emitter }.

    Streams are finite here (one bounded input file), so a stream is the
    list of its chunks in order.  JavaScript strings are modelled as
    [string] (sequences of one-byte characters); a value of type
    "string or undefined" is an [option string], [None] being [undefined]. *)

From Stdlib Require Import ZArith Ascii String DecimalString DecimalNat Sorted Permutation.
From stdpp Require Import gmap strings list.

(** ** String primitives of the host language *)

Module Js.

Definition TAB : ascii := "009"%char.

(** White space removed by [String.prototype.trim], on one-byte
    characters: TAB, LF, VT, FF, CR and SPACE. *)
Definition isWhiteSpace (c : ascii) : bool :=
  match N_of_ascii c with
  | 9 | 10 | 11 | 12 | 13 | 32 => true
  | _ => false
  end%N.

Fixpoint trimStart (s : string) : string :=
  match s with
  | EmptyString => EmptyString
  | String c r => if isWhiteSpace c then trimStart r else s
  end.

Fixpoint trimEnd (s : string) : string :=
  match s with
  | EmptyString => EmptyString
  | String c r =>
      match trimEnd r with
      | EmptyString => if isWhiteSpace c then EmptyString else String c EmptyString
      | r' => String c r'
      end
  end.

Definition trim (s : string) : string := trimEnd (trimStart s).

(** [s.split(sep)] for a one-character separator: never the empty
    array, [""] splits into [[""]]. *)
Fixpoint split (sep : ascii) (s : string) : list string :=
  match s with
  | EmptyString => [EmptyString]
  | String c r =>
      if Ascii.eqb c sep then EmptyString :: split sep r
      else match split sep r with
           | [] => [String c EmptyString]
           | p :: ps => String c p :: ps
           end
  end.

(** [s.split(sep, limit)]: all the pieces are cut, the first [limit]
    are kept. *)
Definition splitLimit (sep : ascii) (limit : nat) (s : string) : list string :=
  take limit (split sep s).

(** [s.replaceAll(from, to)] for one-character patterns. *)
Fixpoint replaceAll (from to : ascii) (s : string) : string :=
  match s with
  | EmptyString => EmptyString
  | String c r => String (if Ascii.eqb c from then to else c) (replaceAll from to r)
  end.

Fixpoint repeatChar (n : nat) (c : ascii) : string :=
  match n with
  | O => EmptyString
  | S k => String c (repeatChar k c)
  end.

(** [s.padStart(width, fill)] for a one-character filler. *)
Definition padStart (width : nat) (fill : ascii) (s : string) : string :=
  repeatChar (width - String.length s) fill +:+ s.

(** [`${n}`] for a counter. *)
Definition ofNat (n : nat) : string := NilEmpty.string_of_uint (Nat.to_uint n).

(** [`${v}`] for a string that may be [undefined]. *)
Definition interpolate (v : option string) : string :=
  match v with
  | Some s => s
  | None => "undefined"
  end.

(** Truthiness of a string that may be [undefined]: [undefined] and
    [""] are falsy. *)
Definition truthy (v : option string) : bool :=
  match v with
  | Some EmptyString | None => false
  | Some _ => true
  end.

(** Strict equality [a === b] of a string with a string that may be
    [undefined]. *)
Definition strictEq (a : string) (b : option string) : bool :=
  match b with
  | Some s => String.eqb a s
  | None => false
  end.

End Js.

(** ** Configuration constants and file names *)

Definition getFileName (name : string) : string :=
  "au-name-" +:+ Js.replaceAll " " "_" name +:+ ".json".

Definition configName : string :=
  "top200-08-mahidol-university-energy-with-id-20241205".

Definition inputFile : string := "./target/" +:+ configName +:+ ".txt".
Definition outputDir : string := "./target/output/" +:+ configName.
Definition catchDir : string := outputDir.
Definition resultFile : string := outputDir +:+ "/" +:+ configName +:+ "-result.csv".

Definition getCache (name : string) : string :=
  catchDir +:+ "/" +:+ getFileName name.

Definition getOuput (name : string) : string :=
  outputDir +:+ "/" +:+ getFileName name.

(** ** Stream combinators *)

(** Modelled from the spec: the combinators [map], [filter] and [flatMap]
    of [./streams.ts], which is not part of the sources at hand.  The spec
    has every stage observe the items in input order, one output per item
    for [map], the kept items for [filter], and the concatenated
    sub-streams for [flatMap]; a callback with captured mutable state sees
    that state threaded from item to item. *)
Module Stream.

Definition map {A B} (f : A → B) (xs : list A) : list B := f <$> xs.

Definition filter {A} (p : A → bool) (xs : list A) : list A :=
  List.filter p xs.

(** [map] whose callback may throw: the first throw errors the stream
    ([None]). *)
Fixpoint mapStateful {S A B} (f : S → A → option (S * B)) (s : S) (xs : list A)
  : option (list B) :=
  match xs with
  | [] => Some []
  | x :: rest =>
      match f s x with
      | None => None
      | Some (s', y) => cons y <$> mapStateful f s' rest
      end
  end.

(** [flatMap] whose callback reads and updates captured state. *)
Fixpoint flatMapStateful {S A B} (f : S → A → S * list B) (s : S) (xs : list A)
  : S * list B :=
  match xs with
  | [] => (s, [])
  | x :: rest =>
      let '(s1, out) := f s x in
      let '(s2, outs) := flatMapStateful f s1 rest in
      (s2, out ++ outs)
  end.

End Stream.

(** ** Query Normalizer ([inputStream]) *)

Record QueryRecord := {
  lastName : option string;
  firstName : option string;
  subjectArea : option string;
  ind : option string;
  nPub : option string;
  name : string;
  index : string
}.

(** The body of the counting [map]: [None] stands for the [TypeError]
    that [name.split] raises when [name] is [undefined].  Destructuring
    an array beyond its length binds [undefined]. *)
Definition normalize (count : nat) (value : string) : option (nat * QueryRecord) :=
  let cols := Js.trim <$> Js.split Js.TAB value in
  match cols !! 0%nat with
  | None => None
  | Some name =>
      let parts := Js.trim <$> Js.splitLimit "," 2 name in
      let index := Js.padStart 5 " " (Js.ofNat count) in
      Some (S count,
            {| lastName := parts !! 0%nat;
               firstName := parts !! 1%nat;
               subjectArea := cols !! 1%nat;
               ind := cols !! 2%nat;
               nPub := cols !! 3%nat;
               name := name;
               index := index |})
  end.

Definition nonBlank (value : string) : bool :=
  negb (String.eqb value EmptyString).

Definition inputStream (lines : list string) : option (list QueryRecord) :=
  Stream.mapStateful normalize 1%nat
    (Stream.filter nonBlank (Stream.map Js.trim lines)).

(** ** Values, thrown values and completions *)

(** The values that can be thrown and archived: [undefined], strings,
    plain objects (own properties in insertion order) and [Error]
    instances with their [message] and [cause]. *)
#[warnings="-register-all"]
Inductive JsValue :=
  | Undefined
  | Str (s : string)
  | Obj (props : list (string * JsValue))
  | ErrorObj (message : string) (cause : JsValue).

(** [`${v}`] for a value that is not an [Error]. *)
Definition toString (v : JsValue) : string :=
  match v with
  | Undefined => "undefined"
  | Str s => s
  | Obj _ => "[object Object]"
  | ErrorObj message _ => "Error: " +:+ message
  end.

(** An [Error] instance held in a variable of type [Error]; its [name]
    is the default one. *)
Record JsError := {
  message : string;
  cause : JsValue
}.

Definition errorName (e : JsError) : string := "Error".

(** How an awaited call ends: with a value, or by throwing one. *)
Inductive Completion (A : Type) :=
  | Normal (a : A)
  | Throw (v : JsValue).
Arguments Normal {A} a.
Arguments Throw {A} v.

(** ** The search response *)

(** Modelled from the spec: the types [ScopusSearchResponseBody] and
    [ScopusAuthorSearchEntry] of [./elsevier-types], which are not part of
    the sources at hand.  The spec gives a candidate an external id, a
    preferred surname, given name and initials, and a document count, and
    a response its candidates and a total-match count; the fields are
    named and nested as the script reads them, and the two counts are
    kept as the strings on which the script applies unary [+]. *)
Module Entry.
Record PreferredName := {
  given_name : string;
  surname : string;
  initials : string
}.

Record t := {
  dc_identifier : string;
  document_count : string;
  preferred_name : PreferredName
}.
End Entry.

Record SearchResults := {
  opensearch_totalResults : string;
  entry : list Entry.t
}.

Record ScopusSearchResponseBody := {
  search_results : SearchResults
}.

(** ** Fetch Stage ([authorStream]) *)

Inductive FetchResult :=
  | FetchedResult (q : QueryRecord) (isCached : bool) (body : ScopusSearchResponseBody)
  | FetchedError (q : QueryRecord) (isCached : bool) (body : JsError).

Definition queryOf (r : FetchResult) : QueryRecord :=
  match r with
  | FetchedResult q _ _ | FetchedError q _ _ => q
  end.

Definition isCachedOf (r : FetchResult) : bool :=
  match r with
  | FetchedResult _ c _ | FetchedError _ c _ => c
  end.

Definition isErrorType (r : FetchResult) : bool :=
  match r with
  | FetchedResult _ _ _ => false
  | FetchedError _ _ _ => true
  end.

Definition buildQuery (q : QueryRecord) : string :=
  if Js.truthy (firstName q)
  then "AUTHLASTNAME(" +:+ Js.interpolate (lastName q) +:+ ") AND AUTHFIRST("
       +:+ Js.interpolate (firstName q) +:+ ") AND SUBJAREA("
       +:+ Js.interpolate (subjectArea q) +:+ ")"
  else "AUTHLASTNAME(" +:+ Js.interpolate (lastName q) +:+ ") AND SUBJAREA("
       +:+ Js.interpolate (subjectArea q) +:+ ")".

(** The error built in the outer [catch]. *)
Definition wrapError (query : string) (err : JsValue) : JsError :=
  match err with
  | ErrorObj message cause =>
      {| message := message;
         cause := Obj [("query", Str query); ("error", cause); ("origin", err)] |}
  | _ =>
      {| message := toString err;
         cause := Obj [("query", Str query); ("origin", err)] |}
  end.

Section FetchStage.

(** [JSON.parse(await Deno.readTextFile(path))]: the parsed document,
    or whatever the read or the parse throws. *)
Variable readCacheFile : string → Completion ScopusSearchResponseBody.

(** [authorSearchApi.search({ query, view: 'STANDARD' }, ...)]. *)
Variable search : string → Completion ScopusSearchResponseBody.

(** The inner [try]/[catch]: a failed cache read is a miss, and the
    gateway is called. *)
Definition loadBody (q : QueryRecord) (query : string)
  : Completion (bool * ScopusSearchResponseBody) :=
  match readCacheFile (getCache (name q)) with
  | Normal body => Normal (true, body)
  | Throw _ =>
      match search query with
      | Normal body => Normal (false, body)
      | Throw v => Throw v
      end
  end.

(** The body of the outer [try]. *)
Definition tryFetch (q : QueryRecord) (query : string)
  : Completion (bool * ScopusSearchResponseBody) :=
  if String.eqb (name q) EmptyString
  then Throw (ErrorObj "The name is empty" Undefined)
  else loadBody q query.

Definition fetch (q : QueryRecord) : FetchResult :=
  let query := buildQuery q in
  match tryFetch q query with
  | Normal (isCached, body) => FetchedResult q isCached body
  | Throw err => FetchedError q false (wrapError query err)
  end.

Definition authorStream (qs : list QueryRecord) : list FetchResult :=
  Stream.map fetch qs.

End FetchStage.

(** [stream.tee()]: both branches carry every chunk, in order. *)
Definition tee {A} (s : list A) : list A * list A := (s, s).

(** ** Archive Sink ([cachingAuthorPromise]) *)

(** What is handed to [JSON.stringify(_, undefined, 2)]. *)
Inductive Document :=
  | DocValue (v : JsValue)
  | DocBody (b : ScopusSearchResponseBody).

(** One [Deno.open(path, { create, write })] followed by one
    [write] of the encoded document. *)
Record FileWrite := {
  fw_path : string;
  fw_data : Document
}.

Definition indexPrefixOf (index : string) : string :=
  "inx" +:+ Js.replaceAll " " "0" index.

(** The name handed to [getOuput] by the sink. *)
Definition archiveName (r : FetchResult) : string :=
  let indexPrefix := indexPrefixOf (index (queryOf r)) in
  let fileId := if String.eqb (name (queryOf r)) EmptyString
                then indexPrefix else name (queryOf r) in
  let prefix := if isErrorType r then "error-" +:+ indexPrefix +:+ "-" else EmptyString in
  prefix +:+ fileId.

Definition archiveDocument (r : FetchResult) : Document :=
  match r with
  | FetchedError _ _ body =>
      DocValue (Obj [("name", Str (errorName body));
                     ("message", Str (message body));
                     ("cause", cause body)])
  | FetchedResult _ _ body => DocBody body
  end.

(** The sink's [write] callback, as the list of file writes it performs. *)
Definition sinkWrite (r : FetchResult) : list FileWrite :=
  if isCachedOf r && String.eqb (getCache (name (queryOf r))) (getOuput (name (queryOf r)))
  then []
  else [ {| fw_path := getOuput (archiveName r); fw_data := archiveDocument r |} ].

Definition cachingAuthor (s : list FetchResult) : list FileWrite :=
  s ≫= sinkWrite.

(** ** Numbers and sorting *)

Module JsNumber.

(** The number a count field converts to under unary [+]: an integer,
    or [None] for [NaN]. *)
Definition t := option Z.

(** [a > b]: false as soon as one side is [NaN]. *)
Definition gt (a b : t) : bool :=
  match a, b with
  | Some x, Some y => (y <? x)%Z
  | _, _ => false
  end.

(** [a < b]. *)
Definition lt (a b : t) : bool := gt b a.

(** Unary [+] on a string of decimal digits (the empty string is 0),
    used to run the selector on concrete responses. *)
Definition ofDigits (s : string) : t :=
  Z.of_uint <$> NilEmpty.uint_of_string s.

End JsNumber.

Module Array.

Section Sort.
Context {A : Type} (compareFn : A → A → Z).

(** [x] came before every element of [l] in the array: it moves
    behind [y] only when [compareFn x y > 0]. *)
Fixpoint insert (x : A) (l : list A) : list A :=
  match l with
  | [] => [x]
  | y :: rest =>
      if (0 <? compareFn x y)%Z then y :: insert x rest else x :: l
  end.

(** [Array.prototype.sort(compareFn)], which is stable: elements
    that compare as 0 keep their order. *)
Fixpoint sort (l : list A) : list A :=
  match l with
  | [] => []
  | x :: rest => insert x (sort rest)
  end.
End Sort.

End Array.

(** ** Candidate Selector ([resultsAuthorStream]) *)

Module ResolvedAuthor.
(** The object literal emitted for a selected candidate. *)
Record t := {
  id : option string;
  name : string;
  ind : option string;
  given_name : string;
  surname : string;
  initials : string;
  number_of_publications : option string;
  searching_subject_area : option string;
  document_count : string;
  lastName : option string;
  firstName : option string;
  index : string
}.

(** Its own properties, in the order the literal lists them. *)
Definition properties (r : t) : list (string * option string) :=
  [ ("id", id r);
    ("name", Some (name r));
    ("ind", ind r);
    ("given-name", Some (given_name r));
    ("surname", Some (surname r));
    ("initials", Some (initials r));
    ("number-of-publications", number_of_publications r);
    ("searching-subject-area", searching_subject_area r);
    ("document-count", Some (document_count r));
    ("lastName", lastName r);
    ("firstName", firstName r);
    ("index", Some (index r)) ].
End ResolvedAuthor.

(** [entry['dc:identifier'].split(':')[1]], [undefined] when the
    identifier has no colon. *)
Definition externalId (e : Entry.t) : option string :=
  Js.split ":" (Entry.dc_identifier e) !! 1%nat.

(** The predicate given to [find]. *)
Definition matchesName (q : QueryRecord) (e : Entry.t) : bool :=
  Js.strictEq (Entry.surname (Entry.preferred_name e)) (lastName q)
  && (negb (Js.truthy (firstName q))
      || Js.strictEq (Entry.initials (Entry.preferred_name e)) (firstName q)).

Definition toRow (q : QueryRecord) (result : Entry.t) : ResolvedAuthor.t :=
  let preferredName := Entry.preferred_name result in
  {| ResolvedAuthor.id := externalId result;
     ResolvedAuthor.name := name q;
     ResolvedAuthor.ind := ind q;
     ResolvedAuthor.given_name := Entry.given_name preferredName;
     ResolvedAuthor.surname := Entry.surname preferredName;
     ResolvedAuthor.initials := Entry.initials preferredName;
     ResolvedAuthor.number_of_publications := nPub q;
     ResolvedAuthor.searching_subject_area := subjectArea q;
     ResolvedAuthor.document_count := Entry.document_count result;
     ResolvedAuthor.lastName := lastName q;
     ResolvedAuthor.firstName := firstName q;
     ResolvedAuthor.index := index q |}.

(** The type guard of the [filter] narrows a chunk to its successful
    variant. *)
Definition asResult (r : FetchResult) : option (QueryRecord * ScopusSearchResponseBody) :=
  match r with
  | FetchedResult q _ body => Some (q, body)
  | FetchedError _ _ _ => None
  end.

Section CandidateSelector.

(** Unary [+] on the count fields of a response. *)
Variable toNumber : string → JsNumber.t.

(** The predicate of the [filter] in front of the selector. *)
Definition hasMatches (r : FetchResult) : bool :=
  match r with
  | FetchedError _ _ _ => false
  | FetchedResult _ _ body =>
      JsNumber.gt (toNumber (opensearch_totalResults (search_results body))) (Some 0%Z)
  end.

Definition compareFn (pre next : Entry.t) : Z :=
  let docCountPre := toNumber (Entry.document_count pre) in
  let docCountNext := toNumber (Entry.document_count next) in
  if JsNumber.gt docCountPre docCountNext then (-1)%Z
  else if JsNumber.lt docCountPre docCountNext then 1%Z
  else 0%Z.

Definition unclaimed (idSet : gset (option string)) (e : Entry.t) : bool :=
  negb (bool_decide (externalId e ∈ idSet)).

Definition sortedEntries (idSet : gset (option string)) (body : ScopusSearchResponseBody)
  : list Entry.t :=
  Array.sort compareFn (List.filter (unclaimed idSet) (entry (search_results body))).

(** [sortedEntries.find(...) ?? sortedEntries[0]]. *)
Definition result (idSet : gset (option string)) (q : QueryRecord)
    (body : ScopusSearchResponseBody) : option Entry.t :=
  match List.find (matchesName q) (sortedEntries idSet body) with
  | Some e => Some e
  | None => sortedEntries idSet body !! 0%nat
  end.

(** The callback of the [flatMap], [idSet] being its captured set. *)
Definition select (idSet : gset (option string))
    (item : QueryRecord * ScopusSearchResponseBody)
  : gset (option string) * list ResolvedAuthor.t :=
  let '(q, body) := item in
  match result idSet q body with
  | Some e => ({[ externalId e ]} ∪ idSet, [toRow q e])
  | None => (idSet, [])
  end.

Definition selectFrom (idSet : gset (option string)) (pre : list FetchResult)
  : gset (option string) * list ResolvedAuthor.t :=
  Stream.flatMapStateful select idSet (omap asResult (Stream.filter hasMatches pre)).

Definition resultsAuthorStream (pre : list FetchResult) : list ResolvedAuthor.t :=
  (selectFrom ∅ pre).2.

End CandidateSelector.

(** ** Tabular Emitter ([resultsAuthorPromise]) *)

(** A chunk of CSV text, as the rows of cells it encodes; the encoding
    itself belongs to [@std/csv]. *)
Definition CsvText := list (list (option string)).

Definition Object_keys (r : ResolvedAuthor.t) : list string := (ResolvedAuthor.properties r).*1.

Definition getProperty (r : ResolvedAuthor.t) (key : string) : option string :=
  match List.find (λ kv, String.eqb kv.1 key) (ResolvedAuthor.properties r) with
  | Some kv => kv.2
  | None => None
  end.

(** [stringify(rows, { headers: false })] on arrays of strings. *)
Definition stringifyArrays (data : list (list string)) : CsvText :=
  map (map Some) data.

(** [stringify(objects, { headers: false, columns })]. *)
Definition stringifyObjects (columns : list string) (data : list ResolvedAuthor.t) : CsvText :=
  map (λ r, map (getProperty r) columns) data.

(** The callback of the emitter's [flatMap], [columns] being its
    captured variable ([None] is [null]). *)
Definition emit (columns : option (list string)) (entry : ResolvedAuthor.t)
  : option (list string) * list CsvText :=
  match columns with
  | None =>
      let columns := Object_keys entry in
      (Some columns, [stringifyArrays [columns]; stringifyObjects columns [entry]])
  | Some cols => (columns, [stringifyObjects cols [entry]])
  end.

Definition resultsAuthor (s : list ResolvedAuthor.t) : list CsvText :=
  (Stream.flatMapStateful emit None s).2.

(** ** The whole run *)

Record RunOutput := {
  archived : list FileWrite;
  resolved : list ResolvedAuthor.t;
  tabular : list CsvText
}.

Section Pipeline.

Variable readCacheFile : string → Completion ScopusSearchResponseBody.
Variable search : string → Completion ScopusSearchResponseBody.
Variable toNumber : string → JsNumber.t.

(** [None] when the input stream errors. *)
Definition run (lines : list string) : option RunOutput :=
  qs ← inputStream lines;
  let '(cachingAuthorStream, preResultsAuthorStream) :=
    tee (authorStream readCacheFile search qs) in
  let rows := resultsAuthorStream toNumber preResultsAuthorStream in
  Some {| archived := cachingAuthor cachingAuthorStream;
          resolved := rows;
          tabular := resultsAuthor rows |}.

End Pipeline.

(** ** Sample data *)

Module Sample.

Definition tab : string := String Js.TAB EmptyString.

(** The line ["Smith, J\tENGI\t1\t50"]. *)
Definition smithLine : string :=
  "Smith, J" +:+ tab +:+ "ENGI" +:+ tab +:+ "1" +:+ tab +:+ "50".

Definition smithJ : QueryRecord :=
  {| lastName := Some "Smith"; firstName := Some "J";
     subjectArea := Some "ENGI"; ind := Some "1"; nPub := Some "50";
     name := "Smith, J"; index := "    1" |}.

Definition smithK : QueryRecord :=
  {| lastName := Some "Smith"; firstName := Some "K.";
     subjectArea := Some "ENGI"; ind := Some "2"; nPub := Some "40";
     name := "Smith, K."; index := "    2" |}.

Definition candidate (id surname initials documentCount : string) : Entry.t :=
  {| Entry.dc_identifier := "AUTHOR_ID:" +:+ id;
     Entry.document_count := documentCount;
     Entry.preferred_name :=
       {| Entry.given_name := EmptyString;
          Entry.surname := surname;
          Entry.initials := initials |} |}.

Definition response (total : string) (entries : list Entry.t) : ScopusSearchResponseBody :=
  {| search_results := {| opensearch_totalResults := total; entry := entries |} |}.

Definition a1 : Entry.t := candidate "A1" "Smith" "J." "3".
Definition a2 : Entry.t := candidate "A2" "Smith" "K." "9".
Definition a1Exact : Entry.t := candidate "A1" "Smith" "J" "3".

Definition twoSmiths : ScopusSearchResponseBody := response "2" [a1; a2].
Definition twoSmithsExact : ScopusSearchResponseBody := response "2" [a1Exact; a2].
Definition noMatch : ScopusSearchResponseBody := response "0" [].

(** A Failure for the sample record, as the Fetch Stage builds it. *)
Definition failed : FetchResult :=
  FetchedError smithJ false
    (wrapError (buildQuery smithJ) (ErrorObj "Quota exceeded" (Str "429"))).

(** A Success for a record whose raw name starts with [error-]. *)
Definition oddName : FetchResult :=
  FetchedResult
    {| lastName := Some "error-x"; firstName := None;
       subjectArea := Some "ENGI"; ind := Some "1"; nPub := Some "50";
       name := "error-x"; index := "    2" |}
    false noMatch.

(** A zero-match Success read back from the cache. *)
Definition cachedNoMatch : FetchResult := FetchedResult smithJ true noMatch.

Definition enoent : JsValue := ErrorObj "No such file or directory" Undefined.
Definition quota : JsValue := ErrorObj "Quota exceeded" (Str "429").

End Sample.

(** What one call of the counting callback returns. *)
Definition normalized (count : nat) (value : string) (q : QueryRecord) : Prop :=
  let cols := Js.split Js.TAB value in
  Some (name q) = Js.trim <$> cols !! 0%nat
  ∧ subjectArea q = Js.trim <$> cols !! 1%nat
  ∧ ind q = Js.trim <$> cols !! 2%nat
  ∧ nPub q = Js.trim <$> cols !! 3%nat
  ∧ is_Some (lastName q)
  ∧ index q = Js.padStart 5 " " (Js.ofNat count).

(** The trimmed, non-blank lines: the values that reach the counting
    callback. *)
Definition nonBlankLines (lines : list string) : list string :=
  Stream.filter nonBlank (Stream.map Js.trim lines).

(** ** Specification-side definitions *)

(** The errors that the outer [try] of the Fetch Stage lets through: the
    validation error on an empty name, and what the gateway throws after
    a cache miss. *)
Inductive fetchThrows (readCacheFile search : string → Completion ScopusSearchResponseBody)
    (q : QueryRecord) : JsValue → Prop :=
  | throws_empty_name :
      name q = EmptyString →
      fetchThrows readCacheFile search q (ErrorObj "The name is empty" Undefined)
  | throws_gateway (miss err : JsValue) :
      name q ≠ EmptyString →
      readCacheFile (getCache (name q)) = Throw miss →
      search (buildQuery q) = Throw err →
      fetchThrows readCacheFile search q err.

(** The archive name in the words of the spec: the raw name, or
    [inx<zero-padded index>] when it is empty, with [error-] in front
    for a Failure. *)
Definition specArchiveName (r : FetchResult) : string :=
  (if isErrorType r then "error-" else EmptyString)
  +:+ (if String.eqb (name (queryOf r)) EmptyString
       then "inx" +:+ Js.replaceAll " " "0" (index (queryOf r))
       else name (queryOf r)).


(** The document count of a candidate is a number, not [NaN]. *)
Definition numericCount (toNumber : string → JsNumber.t) (e : Entry.t) : Prop :=
  is_Some (toNumber (Entry.document_count e)).

(** [a] has at least the document count of [b], both being numbers. *)
Definition countGe (toNumber : string → JsNumber.t) (a b : Entry.t) : Prop :=
  ∃ x y, toNumber (Entry.document_count a) = Some x
       ∧ toNumber (Entry.document_count b) = Some y
       ∧ (y ≤ x)%Z.

(** The columns of the tabular output. *)
Definition rowColumns : list string :=
  [ "id"; "name"; "ind"; "given-name"; "surname"; "initials";
    "number-of-publications"; "searching-subject-area"; "document-count";
    "lastName"; "firstName"; "index" ].

(** [s.includes(c)] for a one-character [c]. *)
Fixpoint includesChar (c : ascii) (s : string) : bool :=
  match s with
  | EmptyString => false
  | String x r => Ascii.eqb x c || includesChar c r
  end.


(** The row that the selector emits for a result and the candidate chosen
    for it. *)
Definition rowOf (choice : FetchResult * Entry.t) : ResolvedAuthor.t :=
  toRow (queryOf choice.1) choice.2.

(** The lines of a tabular output, chunk after chunk. *)
Definition csvLines (chunks : list CsvText) : list (list (option string)) :=
  concat chunks.

(** The first cell of each line below the header line. *)
Definition idColumn (chunks : list CsvText) : list (option (option string)) :=
  head <$> drop 1 (csvLines chunks).

(** * Properties *)

(** ** Query Normalizer *)

Lemma split_cons (sep : ascii) (s : string) :
  ∃ p ps, Js.split sep s = p :: ps.
Proof.
  induction s as [|c r IH]; simpl.
  - eauto.
  - destruct (Ascii.eqb c sep); [eauto|].
    destruct IH as (p & ps & ->). eauto.
Qed.

Lemma split_length_pos (sep : ascii) (s : string) :
  0 < length (Js.split sep s).
Proof. destruct (split_cons sep s) as (p & ps & ->). simpl. lia. Qed.

Lemma normalize_returns (count : nat) (value : string) :
  ∃ q, normalize count value = Some (S count, q) ∧ normalized count value q.
Proof.
  unfold normalize, normalized.
  destruct (split_cons Js.TAB value) as (p & ps & ->).
  cbn [fmap list_fmap lookup list_lookup].
  destruct (split_cons "," (Js.trim p)) as (a & bs & Hsplit).
  eexists. split; [reflexivity|].
  cbn [name subjectArea ind nPub lastName index].
  repeat split; try reflexivity; try apply list_lookup_fmap.
  unfold Js.splitLimit. rewrite Hsplit. cbn. eauto.
Qed.

Lemma mapStateful_normalize (values : list string) (count : nat) :
  ∃ qs, Stream.mapStateful normalize count values = Some qs
      ∧ length qs = length values
      ∧ ∀ i value, values !! i = Some value →
          ∃ q, qs !! i = Some q ∧ normalized (count + i) value q.
Proof.
  revert count. induction values as [|v rest IH]; intros count; simpl.
  - exists []. split; [reflexivity|]. split; [reflexivity|].
    intros i value Hi. by rewrite lookup_nil in Hi.
  - destruct (normalize_returns count v) as (q & -> & Hq).
    destruct (IH (S count)) as (qs & -> & Hlen & Hall).
    exists (q :: qs). split; [reflexivity|]. split; [simpl; lia|].
    intros [|i] value Hi; simpl in Hi.
    + injection Hi as <-. exists q. rewrite Nat.add_0_r. by split.
    + destruct (Hall i value Hi) as (q' & Hq' & Hn).
      exists q'. split; [exact Hq'|].
      by replace (count + S i) with (S count + i) by lia.
Qed.

(** C5, as the code has it: the Query Normalizer never fails.  Every run
    of [inputStream] returns one record per non-blank line, in order; the
    record of a line takes its name and its three other columns from the
    tab-separated pieces, trimmed, and a column the line does not have is
    [undefined] ([None]), not the empty string. *)
Theorem inputStream_total_missing_undefined (lines : list string) :
  ∃ qs, inputStream lines = Some qs
      ∧ length qs = length (nonBlankLines lines)
      ∧ ∀ i value, nonBlankLines lines !! i = Some value →
          ∃ q, qs !! i = Some q
             ∧ normalized (1 + i) value q
             ∧ (length (Js.split Js.TAB value) ≤ 1 → subjectArea q = None)
             ∧ (length (Js.split Js.TAB value) ≤ 2 → ind q = None)
             ∧ (length (Js.split Js.TAB value) ≤ 3 → nPub q = None).
Proof.
  unfold inputStream. fold (nonBlankLines lines).
  destruct (mapStateful_normalize (nonBlankLines lines) 1) as (qs & Hrun & Hlen & Hall).
  exists qs. split; [exact Hrun|]. split; [exact Hlen|].
  intros i value Hi. destruct (Hall i value Hi) as (q & Hq & Hn).
  exists q. split; [exact Hq|]. split; [exact Hn|].
  destruct Hn as (_ & Hs & Hind & Hpub & _).
  repeat split; intros Hshort.
  - rewrite Hs, lookup_ge_None_2; [reflexivity|lia].
  - rewrite Hind, lookup_ge_None_2; [reflexivity|lia].
  - rewrite Hpub, lookup_ge_None_2; [reflexivity|lia].
Qed.

(** C5, as stated, fails: the non-blank line ["Smith, J"] has one column,
    and its record has [undefined] where the claim has empty strings. *)
Lemma normalize_missing_column_not_empty_string :
  nonBlankLines ["Smith, J"] = ["Smith, J"]
  ∧ length (Js.split Js.TAB "Smith, J") = 1
  ∧ (∃ q, normalize 1 "Smith, J" = Some (2, q)
        ∧ subjectArea q = None ∧ ind q = None ∧ nPub q = None)
  ∧ ¬ (∃ q, normalize 1 "Smith, J" = Some (2, q)
          ∧ subjectArea q = Some EmptyString
          ∧ ind q = Some EmptyString
          ∧ nPub q = Some EmptyString).
Proof.
  split; [reflexivity|]. split; [reflexivity|]. split.
  - eexists. split; [vm_compute; reflexivity|]. by cbn.
  - intros (q & Hq & Hs & _). vm_compute in Hq. injection Hq as <-.
    discriminate Hs.
Qed.

(** ** Fetch Stage *)

Section FetchStageFacts.

Variable readCacheFile : string → Completion ScopusSearchResponseBody.
Variable search : string → Completion ScopusSearchResponseBody.

Local Abbreviation fetch1 := (fetch readCacheFile search).
Local Abbreviation tryFetch1 := (tryFetch readCacheFile search).
Local Abbreviation throws := (fetchThrows readCacheFile search).

Lemma tryFetch_throw_iff (q : QueryRecord) (err : JsValue) :
  tryFetch1 q (buildQuery q) = Throw err ↔ throws q err.
Proof.
  unfold tryFetch, loadBody. split.
  - destruct (String.eqb_spec (name q) EmptyString) as [Hname|Hname].
    + intros [= <-]. by constructor.
    + destruct (readCacheFile _) as [body|miss] eqn:Hread; [discriminate|].
      destruct (search _) as [body|v] eqn:Hsearch; [discriminate|].
      intros [= <-]. by econstructor.
  - intros [Hname|miss err' Hname Hread Hsearch].
    + by rewrite Hname.
    + destruct (String.eqb_spec (name q) EmptyString); [done|].
      by rewrite Hread, Hsearch.
Qed.

Lemma wrapError_cause (query : string) (err : JsValue) :
  ∃ rest, cause (wrapError query err) = Obj (("query", Str query) :: rest)
        ∧ ("origin", err) ∈ rest.
Proof.
  destruct err; cbn; eexists; (split; [reflexivity|]); set_solver.
Qed.

Lemma fetch_keeps_record (q : QueryRecord) : queryOf (fetch1 q) = q.
Proof.
  unfold fetch. by destruct (tryFetch1 _ _) as [[c body]|err].
Qed.

(** C7, as the code has it: the errors of the empty-name validation and
    of the gateway call are caught in the Fetch Stage and become a
    Failure for the same record, with [isCached] false and a cause that
    holds the query string and the thrown value; a Failure arises in no
    other way.  An error of the cache read is caught one level below and
    counts as a miss: when the gateway then answers, the result is a
    Success.  The stage returns a result for every record, and the
    result at a position depends on the record at that position alone. *)
Theorem fetch_converts_thrown_errors (q : QueryRecord) :
  (∀ err, throws q err →
      fetch1 q = FetchedError q false (wrapError (buildQuery q) err))
  ∧ (∀ q' isCached body, fetch1 q = FetchedError q' isCached body →
      q' = q ∧ isCached = false
      ∧ ∃ err rest, throws q err
          ∧ body = wrapError (buildQuery q) err
          ∧ cause body = Obj (("query", Str (buildQuery q)) :: rest)
          ∧ ("origin", err) ∈ rest)
  ∧ (∀ miss body, name q ≠ EmptyString →
      readCacheFile (getCache (name q)) = Throw miss →
      search (buildQuery q) = Normal body →
      fetch1 q = FetchedResult q false body)
  ∧ (∀ qs i, authorStream readCacheFile search qs !! i = fetch1 <$> qs !! i).
Proof.
  split; [|split; [|split]].
  - intros err Herr. apply tryFetch_throw_iff in Herr.
    unfold fetch. by rewrite Herr.
  - intros q' isCached body. unfold fetch.
    destruct (tryFetch1 _ _) as [[c b]|err] eqn:Htry; [discriminate|].
    intros [= <- <- <-]. split; [done|]. split; [done|].
    destruct (wrapError_cause (buildQuery q) err) as (rest & Hcause & Horigin).
    exists err, rest. by rewrite <- tryFetch_throw_iff.
  - intros miss body Hname Hread Hsearch.
    unfold fetch, tryFetch, loadBody.
    destruct (String.eqb_spec (name q) EmptyString); [done|].
    by rewrite Hread, Hsearch.
  - intros qs i. apply list_lookup_fmap.
Qed.

End FetchStageFacts.

(** C7, as stated, fails on the cache read: the read of the cache file
    throws, the gateway answers, and the record ends as a Success, not as
    a Failure. *)
Lemma fetch_cache_read_error_is_a_miss :
  (λ _, Throw Sample.enoent) (getCache (name Sample.smithJ))
    = (Throw Sample.enoent : Completion ScopusSearchResponseBody)
  ∧ fetch (λ _, Throw Sample.enoent) (λ _, Normal Sample.twoSmiths) Sample.smithJ
    = FetchedResult Sample.smithJ false Sample.twoSmiths
  ∧ isErrorType
      (fetch (λ _, Throw Sample.enoent) (λ _, Normal Sample.twoSmiths) Sample.smithJ)
    = false.
Proof. repeat split. Qed.

(** A gateway failure on the sample record, with the cause it carries. *)
Example fetch_gateway_failure :
  fetch (λ _, Throw Sample.enoent) (λ _, Throw Sample.quota) Sample.smithJ
  = FetchedError Sample.smithJ false
      {| message := "Quota exceeded";
         cause := Obj [ ("query", Str "AUTHLASTNAME(Smith) AND AUTHFIRST(J) AND SUBJAREA(ENGI)");
                        ("error", Str "429");
                        ("origin", Sample.quota) ] |}.
Proof. reflexivity. Qed.

(** ** Archive Sink *)

Lemma append_cons (c : ascii) (a b : string) :
  String c a +:+ b = String c (a +:+ b).
Proof. reflexivity. Qed.

Lemma replaceAll_app (from to : ascii) (a b : string) :
  Js.replaceAll from to (a +:+ b) = Js.replaceAll from to a +:+ Js.replaceAll from to b.
Proof.
  induction a as [|c a IH]; [reflexivity|].
  rewrite append_cons. cbn [Js.replaceAll]. by rewrite append_cons, IH.
Qed.

Lemma replaceAll_repeatChar (from to : ascii) (n : nat) :
  Js.replaceAll from to (Js.repeatChar n from) = Js.repeatChar n to.
Proof.
  induction n as [|n IH]; simpl; [reflexivity|].
  by rewrite Ascii.eqb_refl, IH.
Qed.

(** The decimal numeral of a counter has no space in it. *)
Lemma replaceAll_space_ofNat (to : ascii) (n : nat) :
  Js.replaceAll " " to (Js.ofNat n) = Js.ofNat n.
Proof.
  unfold Js.ofNat. induction (Nat.to_uint n) as [|d IH|d IH|d IH|d IH|d IH|d IH|d IH|d IH|d IH|d IH];
    simpl; [reflexivity|by rewrite IH ..].
Qed.

(** On the index that the normalizer writes, the sink's prefix is [inx]
    followed by the counter padded with zeros to five digits. *)
Lemma indexPrefixOf_zero_padded (count : nat) :
  indexPrefixOf (Js.padStart 5 " " (Js.ofNat count))
  = "inx" +:+ Js.padStart 5 "0" (Js.ofNat count).
Proof.
  unfold indexPrefixOf, Js.padStart.
  by rewrite replaceAll_app, replaceAll_repeatChar, replaceAll_space_ofNat.
Qed.

Lemma getCache_getOuput (n : string) : getCache n = getOuput n.
Proof. reflexivity. Qed.

Lemma sinkWrite_cases (r : FetchResult) :
  sinkWrite r
  = if isCachedOf r then []
    else [ {| fw_path := getOuput (archiveName r); fw_data := archiveDocument r |} ].
Proof.
  unfold sinkWrite. rewrite getCache_getOuput, String.eqb_refl.
  by destruct (isCachedOf r).
Qed.

(** C9, as the code has it: a result that the sink writes goes to the file
    [au-name-<id>.json] of the output directory, spaces of [<id>] turned
    into underscores, where [<id>] is the raw name, or
    [inx<zero-padded index>] when the raw name is empty, and, for a
    Failure, has [error-inx<zero-padded index>-] in front (nothing in
    front for a Success). *)
Theorem archive_file_name (r : FetchResult) :
  fw_path <$> sinkWrite r
  = (if isCachedOf r then []
     else [ outputDir +:+ "/au-name-" +:+ Js.replaceAll " " "_" (archiveName r) +:+ ".json" ])
  ∧ archiveName r
    = (if isErrorType r
       then "error-inx" +:+ Js.replaceAll " " "0" (index (queryOf r)) +:+ "-"
       else EmptyString)
      +:+ (if String.eqb (name (queryOf r)) EmptyString
           then "inx" +:+ Js.replaceAll " " "0" (index (queryOf r))
           else name (queryOf r))
  ∧ (isErrorType r = true → String.prefix "error-" (archiveName r) = true)
  ∧ ∀ count, Js.replaceAll " " "0" (Js.padStart 5 " " (Js.ofNat count))
             = Js.padStart 5 "0" (Js.ofNat count).
Proof.
  split; [|split; [|split]].
  - rewrite sinkWrite_cases. destruct (isCachedOf r); [reflexivity|].
    cbn [fmap list_fmap fw_path]. unfold getOuput, getFileName.
    reflexivity.
  - unfold archiveName, indexPrefixOf. by destruct (isErrorType r).
  - intros Herr. unfold archiveName. by rewrite Herr.
  - intros count. pose proof (indexPrefixOf_zero_padded count) as H.
    unfold indexPrefixOf in H. by injection H.
Qed.

(** C9, as stated, fails: the Failure of the record ["Smith, J"] with
    index 1 is archived under [error-inx00001-Smith, J], not under
    [error-Smith, J]; and the Success of a record named [error-x] is
    archived under a name that starts with [error-]. *)
Lemma archive_name_not_plain_error_prefix :
  sinkWrite Sample.failed ≠ []
  ∧ archiveName Sample.failed = "error-inx00001-Smith, J"
  ∧ specArchiveName Sample.failed = "error-Smith, J"
  ∧ archiveName Sample.failed ≠ specArchiveName Sample.failed
  ∧ sinkWrite Sample.oddName ≠ []
  ∧ isErrorType Sample.oddName = false
  ∧ String.prefix "error-" (archiveName Sample.oddName) = true.
Proof. repeat split; discriminate. Qed.

(** C10: the cache path and the output path of a name are the same
    string, so the sink skips exactly the results that came from the
    cache: no write for such a result, one write for any other. *)
Theorem sink_skips_exactly_cached :
  (∀ n, getCache n = getOuput n)
  ∧ (∀ r, isCachedOf r = true → sinkWrite r = [])
  ∧ (∀ r, isCachedOf r = false → length (sinkWrite r) = 1)
  ∧ (∀ s, length (cachingAuthor s)
          = length (List.filter (λ r, negb (isCachedOf r)) s)).
Proof.
  split; [exact getCache_getOuput|]. split; [|split].
  - intros r Hr. by rewrite sinkWrite_cases, Hr.
  - intros r Hr. by rewrite sinkWrite_cases, Hr.
  - intros s. unfold cachingAuthor.
    induction s as [|r s IH]; [reflexivity|].
    cbn [mbind list_bind List.filter]. rewrite length_app, IH, sinkWrite_cases.
    by destruct (isCachedOf r).
Qed.

(** ** Sorting *)

Section SortFacts.
Context {A : Type} (compareFn : A → A → Z).

Lemma insert_Permutation (x : A) (l : list A) :
  Array.insert compareFn x l ≡ₚ x :: l.
Proof.
  induction l as [|y rest IH]; simpl; [done|].
  destruct (0 <? compareFn x y)%Z; [|done].
  rewrite IH. apply Permutation_swap.
Qed.

(** Whatever the comparator, the sorted array holds the elements it
    held before. *)
Lemma sort_Permutation (l : list A) : Array.sort compareFn l ≡ₚ l.
Proof.
  induction l as [|x rest IH]; simpl; [done|].
  by rewrite insert_Permutation, IH.
Qed.

(** With a comparator that is positive only on pairs out of order for
    a transitive [R], and never on both [x, y] and [y, x], the result
    is sorted for [R]. *)
Context (R : A → A → Prop) (P : A → Prop).
Hypothesis R_trans : ∀ x y z, R x y → R y z → R x z.
Hypothesis after : ∀ x y, P x → P y → (0 < compareFn x y)%Z → R y x.
Hypothesis before : ∀ x y, P x → P y → ¬ (0 < compareFn x y)%Z → R x y.

Lemma insert_StronglySorted (x : A) (l : list A) :
  P x → Forall P l → StronglySorted R l →
  StronglySorted R (Array.insert compareFn x l).
Proof.
  intros Hx Hl Hsorted. induction Hsorted as [|y rest Hrest IH Hy]; simpl.
  - repeat constructor.
  - apply Forall_cons in Hl as [HPy HPrest].
    destruct (Z.ltb_spec 0 (compareFn x y)) as [Hlt|Hge].
    + constructor; [by apply IH|].
      rewrite insert_Permutation. constructor; [by apply after|done].
    + assert (R x y) as Hxy by (apply before; [done..|lia]).
      constructor; [by constructor|].
      constructor; [done|].
      eapply Forall_impl; [exact Hy|]. intros z Hz. by eapply R_trans.
Qed.

Lemma sort_StronglySorted (l : list A) :
  Forall P l → StronglySorted R (Array.sort compareFn l).
Proof.
  induction l as [|x rest IH]; simpl; intros Hl; [constructor|].
  apply Forall_cons in Hl as [Hx Hrest].
  apply insert_StronglySorted; [done| |by apply IH].
  by rewrite sort_Permutation.
Qed.

End SortFacts.

(** ** Candidate Selector *)

Lemma strictEq_true (a : string) (b : option string) :
  Js.strictEq a b = true ↔ b = Some a.
Proof.
  destruct b as [s|]; simpl; [|done].
  rewrite String.eqb_eq. naive_solver.
Qed.

Lemma matchesName_true (q : QueryRecord) (e : Entry.t) :
  matchesName q e = true
  ↔ lastName q = Some (Entry.surname (Entry.preferred_name e))
    ∧ (Js.truthy (firstName q) = false
       ∨ firstName q = Some (Entry.initials (Entry.preferred_name e))).
Proof.
  unfold matchesName.
  rewrite andb_true_iff, orb_true_iff, negb_true_iff, !strictEq_true. done.
Qed.

(** [find] returns the first element that satisfies the predicate. *)
Lemma find_first {A} (p : A → bool) (l : list A) :
  match List.find p l with
  | Some e => ∃ pre post, l = pre ++ e :: post
                        ∧ Forall (λ x, p x = false) pre ∧ p e = true
  | None => Forall (λ x, p x = false) l
  end.
Proof.
  induction l as [|x rest IH]; simpl; [constructor|].
  destruct (p x) eqn:Hx.
  - exists [], rest. by repeat split.
  - destruct (List.find p rest) as [e|].
    + destruct IH as (pre & post & -> & Hpre & He).
      exists (x :: pre), post. repeat split; [|done]. by constructor.
    + by constructor.
Qed.

Section SelectorFacts.

Variable toNumber : string → JsNumber.t.

Local Abbreviation sorted := (sortedEntries toNumber).
Local Abbreviation picked := (result toNumber).
Local Abbreviation step := (select toNumber).
Local Abbreviation numeric := (numericCount toNumber).
Local Abbreviation atLeast := (countGe toNumber).

Lemma countGe_trans (x y z : Entry.t) : atLeast x y → atLeast y z → atLeast x z.
Proof.
  intros (a & b & Ha & Hb & Hab) (b' & c & Hb' & Hc & Hbc).
  rewrite Hb in Hb'. injection Hb' as <-.
  exists a, c. repeat split; [done..|lia].
Qed.

Lemma compareFn_after (x y : Entry.t) :
  numeric x → numeric y → (0 < compareFn toNumber x y)%Z → atLeast y x.
Proof.
  intros [a Ha] [b Hb]. unfold compareFn, JsNumber.lt, JsNumber.gt.
  rewrite Ha, Hb. intros Hcmp. exists b, a. repeat split; [done..|].
  destruct (Z.ltb_spec b a); [lia|]. destruct (Z.ltb_spec a b); lia.
Qed.

Lemma compareFn_before (x y : Entry.t) :
  numeric x → numeric y → ¬ (0 < compareFn toNumber x y)%Z → atLeast x y.
Proof.
  intros [a Ha] [b Hb]. unfold compareFn, JsNumber.lt, JsNumber.gt.
  rewrite Ha, Hb. intros Hcmp. exists a, b. repeat split; [done..|].
  destruct (Z.ltb_spec b a); [lia|]. destruct (Z.ltb_spec a b); lia.
Qed.

Lemma sortedEntries_Permutation (idSet : gset (option string)) body :
  sorted idSet body
  ≡ₚ List.filter (unclaimed idSet) (entry (search_results body)).
Proof. apply sort_Permutation. Qed.

Lemma elem_of_sortedEntries (idSet : gset (option string)) body (e : Entry.t) :
  e ∈ sorted idSet body
  ↔ e ∈ entry (search_results body) ∧ externalId e ∉ idSet.
Proof.
  rewrite sortedEntries_Permutation, !list_elem_of_In, filter_In.
  unfold unclaimed. rewrite negb_true_iff, bool_decide_eq_false. done.
Qed.

(** When the counts are numbers the comparator is consistent, and the
    sorted candidates go by descending document count. *)
Lemma sortedEntries_descending (idSet : gset (option string)) body :
  Forall numeric (sorted idSet body) →
  StronglySorted atLeast (sorted idSet body).
Proof.
  intros Hnum. unfold sortedEntries.
  apply sort_StronglySorted with (P := numeric).
  - exact countGe_trans.
  - exact compareFn_after.
  - exact compareFn_before.
  - by rewrite <- sortedEntries_Permutation.
Qed.


Lemma result_elem (idSet : gset (option string)) q body (e : Entry.t) :
  picked idSet q body = Some e → e ∈ sorted idSet body.
Proof.
  unfold result. destruct (List.find _ _) as [e'|] eqn:Hfind.
  - intros [= <-]. apply find_some in Hfind as [Hin _].
    by apply list_elem_of_In.
  - apply list_elem_of_lookup_2.
Qed.

Lemma result_None (idSet : gset (option string)) q body :
  picked idSet q body = None
  ↔ ∀ x, x ∈ entry (search_results body) → externalId x ∈ idSet.
Proof.
  split.
  - unfold result. destruct (List.find _ _) as [e'|]; [done|].
    intros Hhead x Hx.
    destruct (decide (externalId x ∈ idSet)) as [|Hnot]; [done|].
    assert (x ∈ sorted idSet body) as Hin by by apply elem_of_sortedEntries.
    destruct (sorted idSet body); [by apply elem_of_nil in Hin|done].
  - intros Hall. destruct (picked idSet q body) as [e|] eqn:Hpick; [|done].
    apply result_elem, elem_of_sortedEntries in Hpick as [Hin Hnot].
    by apply Hall in Hin.
Qed.

Lemma select_Some (idSet : gset (option string)) q body (e : Entry.t) :
  picked idSet q body = Some e →
  step idSet (q, body) = ({[ externalId e ]} ∪ idSet, [toRow q e]).
Proof. intros H. unfold select. by rewrite H. Qed.

Lemma select_None (idSet : gset (option string)) q body :
  picked idSet q body = None → step idSet (q, body) = (idSet, []).
Proof. intros H. unfold select. by rewrite H. Qed.

(** The invariant of the dedup set: the ids emitted from a state are
    pairwise distinct, none of them was in the set, and the set ends
    as the old one plus the emitted ids. *)
Lemma flatMap_select_ids (items : list (QueryRecord * ScopusSearchResponseBody))
    (idSet : gset (option string)) :
  NoDup (ResolvedAuthor.id <$> (Stream.flatMapStateful step idSet items).2)
  ∧ (∀ i, i ∈ ResolvedAuthor.id <$> (Stream.flatMapStateful step idSet items).2 → i ∉ idSet)
  ∧ (Stream.flatMapStateful step idSet items).1
    = list_to_set (ResolvedAuthor.id <$> (Stream.flatMapStateful step idSet items).2) ∪ idSet.
Proof.
  revert idSet. induction items as [|[q body] rest IH]; intros idSet.
  - cbn. split; [constructor|]. split; [by intros i ?%elem_of_nil|].
    by rewrite (left_id_L ∅ (∪)).
  - cbn [Stream.flatMapStateful].
    destruct (picked idSet q body) as [e|] eqn:Hpick.
    + rewrite (select_Some _ _ _ _ Hpick).
      specialize (IH ({[ externalId e ]} ∪ idSet)).
      destruct (Stream.flatMapStateful step _ rest) as [final rows].
      cbn [fst snd] in *. destruct IH as (Hnodup & Hfresh & ->).
      apply result_elem, elem_of_sortedEntries in Hpick as [_ Hnew].
      cbn [app fmap list_fmap toRow ResolvedAuthor.id]. fold (fmap (M := list) ResolvedAuthor.id rows).
      split; [|split].
      * constructor; [|done]. intros Hin%Hfresh. set_solver.
      * intros i [->|Hin%Hfresh]%elem_of_cons; set_solver.
      * rewrite list_to_set_cons.
        by rewrite (assoc_L (∪)), (comm_L (∪) (list_to_set _) {[ externalId e ]}).
    + rewrite (select_None _ _ _ Hpick). specialize (IH idSet).
      by destruct (Stream.flatMapStateful step _ rest) as [final rows].
Qed.




End SelectorFacts.

Section PipelineFacts.

Variable readCacheFile : string → Completion ScopusSearchResponseBody.
Variable search : string → Completion ScopusSearchResponseBody.
Variable toNumber : string → JsNumber.t.

Lemma run_returns (lines : list string) :
  ∃ qs, inputStream lines = Some qs
      ∧ run readCacheFile search toNumber lines
        = Some {| archived := cachingAuthor (authorStream readCacheFile search qs);
                  resolved := resultsAuthorStream toNumber
                                (authorStream readCacheFile search qs);
                  tabular := resultsAuthor
                               (resultsAuthorStream toNumber
                                  (authorStream readCacheFile search qs)) |}.
Proof.
  destruct (mapStateful_normalize (nonBlankLines lines) 1) as (qs & Hqs & _).
  exists qs. split; [done|]. unfold run, inputStream. fold (nonBlankLines lines).
  by rewrite Hqs.
Qed.

(** C1: over a whole run no external identifier is emitted twice.  From
    any state of the dedup set, the ids of the rows that the selector
    emits are pairwise distinct, none of them was in the set when it was
    selected, and the set ends up holding them all; a run starts from
    the empty set. *)
Theorem emitted_ids_duplicate_free (idSet : gset (option string))
    (pre : list FetchResult) (lines : list string) :
  NoDup (ResolvedAuthor.id <$> (selectFrom toNumber idSet pre).2)
  ∧ (∀ i, i ∈ ResolvedAuthor.id <$> (selectFrom toNumber idSet pre).2 → i ∉ idSet)
  ∧ (selectFrom toNumber idSet pre).1
    = list_to_set (ResolvedAuthor.id <$> (selectFrom toNumber idSet pre).2) ∪ idSet
  ∧ NoDup (ResolvedAuthor.id <$> resultsAuthorStream toNumber pre)
  ∧ ∃ out, run readCacheFile search toNumber lines = Some out
         ∧ NoDup (ResolvedAuthor.id <$> resolved out).
Proof.
  unfold resultsAuthorStream, selectFrom.
  split; [apply flatMap_select_ids|]. split; [apply flatMap_select_ids|].
  split; [apply flatMap_select_ids|]. split; [apply flatMap_select_ids|].
  destruct (run_returns lines) as (qs & _ & ->).
  eexists. split; [reflexivity|]. apply flatMap_select_ids.
Qed.


(** C3: the candidates the selector looks at are the unclaimed ones of
    the response, sorted by descending document count when the counts
    are numbers.  A candidate matches the name when its surname is the
    query's [lastName] and, [firstName] being present (not [undefined],
    not empty), its initials are the query's [firstName].  If some
    candidate matches, the first such candidate in sorted order is
    selected, whatever the document counts of the candidates before it;
    if none matches, the first sorted candidate is selected. *)
Theorem result_prefers_name_match (idSet : gset (option string))
    (q : QueryRecord) (body : ScopusSearchResponseBody) :
  sortedEntries toNumber idSet body
    ≡ₚ List.filter (unclaimed idSet) (entry (search_results body))
  ∧ (∀ e, e ∈ sortedEntries toNumber idSet body
          ↔ e ∈ entry (search_results body) ∧ externalId e ∉ idSet)
  ∧ (Forall (numericCount toNumber) (sortedEntries toNumber idSet body) →
     StronglySorted (countGe toNumber) (sortedEntries toNumber idSet body))
  ∧ (∀ e, matchesName q e = true
          ↔ lastName q = Some (Entry.surname (Entry.preferred_name e))
            ∧ (Js.truthy (firstName q) = false
               ∨ firstName q = Some (Entry.initials (Entry.preferred_name e))))
  ∧ (∀ e, e ∈ sortedEntries toNumber idSet body → matchesName q e = true →
       ∃ pre e0 post,
         sortedEntries toNumber idSet body = pre ++ e0 :: post
         ∧ Forall (λ x, matchesName q x = false) pre
         ∧ matchesName q e0 = true
         ∧ result toNumber idSet q body = Some e0)
  ∧ ((∀ e, e ∈ sortedEntries toNumber idSet body → matchesName q e = false) →
       result toNumber idSet q body = sortedEntries toNumber idSet body !! 0%nat).
Proof.
  split; [apply sortedEntries_Permutation|].
  split; [apply elem_of_sortedEntries|].
  split; [apply sortedEntries_descending|].
  split; [apply matchesName_true|].
  unfold result.
  pose proof (find_first (matchesName q) (sortedEntries toNumber idSet body)) as Hfind.
  destruct (List.find _ _) as [e0|]; split.
  - intros _ _ _. destruct Hfind as (pre & post & Heq & Hpre & He0).
    by exists pre, e0, post.
  - intros Hnone. destruct Hfind as (pre & post & Heq & _ & He0).
    rewrite Hnone in He0; [done|]. rewrite Heq. set_solver.
  - intros e He Hname. eapply Forall_forall in Hfind; [|exact He]. congruence.
  - done.
Qed.

(** C6, as the code has it: a result reaches the selector exactly when
    it is a Success whose total-match count is a number above zero;
    any other result adds no row and leaves the rows of the others
    untouched.  Both branches of the tee get the whole stream of
    results; the sink writes one document for each result that did not
    come from the cache, Failures and zero-match Successes included,
    and writes nothing for a result that came from the cache. *)
Theorem selector_gate_and_archive :
  (∀ r, hasMatches toNumber r = true
        ↔ ∃ q isCached body n,
            r = FetchedResult q isCached body
            ∧ toNumber (opensearch_totalResults (search_results body)) = Some n
            ∧ (0 < n)%Z)
  ∧ (∀ idSet pre1 r pre2, hasMatches toNumber r = false →
       selectFrom toNumber idSet (pre1 ++ r :: pre2)
       = selectFrom toNumber idSet (pre1 ++ pre2))
  ∧ (∀ r, hasMatches toNumber r = false → resultsAuthorStream toNumber [r] = [])
  ∧ (∀ lines, ∃ qs,
       inputStream lines = Some qs
       ∧ run readCacheFile search toNumber lines
         = Some {| archived := cachingAuthor (authorStream readCacheFile search qs);
                   resolved := resultsAuthorStream toNumber
                                 (authorStream readCacheFile search qs);
                   tabular := resultsAuthor
                                (resultsAuthorStream toNumber
                                   (authorStream readCacheFile search qs)) |})
  ∧ (∀ s w, w ∈ cachingAuthor s
            ↔ ∃ r, r ∈ s ∧ isCachedOf r = false
                 ∧ w = {| fw_path := getOuput (archiveName r);
                          fw_data := archiveDocument r |})
  ∧ (∀ r, isCachedOf r = true → sinkWrite r = []).
Proof.
  split; [|split; [|split; [|split; [|split]]]].
  - intros [q c body|q c body]; simpl.
    + unfold JsNumber.gt. destruct (toNumber _) as [n|] eqn:Hn.
      * rewrite Z.ltb_lt. split; [intros ?; by exists q, c, body, n|].
        intros (? & ? & ? & n' & [= <- <- <-] & Hn' & ?). congruence.
      * split; [done|]. intros (? & ? & ? & n' & [= <- <- <-] & Hn' & ?). congruence.
    + split; [done|]. by intros (? & ? & ? & ? & ? & _).
  - intros idSet pre1 r pre2 Hr. unfold selectFrom, Stream.filter.
    rewrite !List.filter_app. cbn [List.filter]. by rewrite Hr.
  - intros r Hr. unfold resultsAuthorStream, selectFrom, Stream.filter.
    cbn [List.filter]. by rewrite Hr.
  - apply run_returns.
  - intros s w. unfold cachingAuthor. rewrite list_elem_of_bind. split.
    + intros (r & Hw & Hr). rewrite sinkWrite_cases in Hw.
      destruct (isCachedOf r) eqn:Hc; [by apply elem_of_nil in Hw|].
      apply list_elem_of_singleton in Hw. by exists r.
    + intros (r & Hr & Hc & ->). exists r. split; [|done].
      rewrite sinkWrite_cases, Hc. by apply list_elem_of_singleton.
  - intros r Hr. by rewrite sinkWrite_cases, Hr.
Qed.

End PipelineFacts.


(** C4, as stated, fails: on the line ["Smith, J\tENGI\t1\t50"] and the
    candidates [A1] (initials ["J."], 3 documents) and [A2] (initials
    ["K."], 9 documents), with an empty dedup set, the selector emits
    [A2], not [A1]. *)
Lemma smith_example_selects_A2 :
  inputStream [Sample.smithLine] = Some [Sample.smithJ]
  ∧ result JsNumber.ofDigits ∅ Sample.smithJ Sample.twoSmiths = Some Sample.a2
  ∧ ResolvedAuthor.id <$> resultsAuthorStream JsNumber.ofDigits
                 [FetchedResult Sample.smithJ false Sample.twoSmiths]
    = [Some "A2"]
  ∧ ResolvedAuthor.id <$> resultsAuthorStream JsNumber.ofDigits
                 [FetchedResult Sample.smithJ false Sample.twoSmiths]
    ≠ [Some "A1"].
Proof.
  split; [vm_compute; reflexivity|]. split; [vm_compute; reflexivity|].
  split; [vm_compute; reflexivity|]. vm_compute. discriminate.
Qed.

(** C4, as the code has it: initials are compared with strict equality,
    and ["J."] is not ["J"].  On the line and the candidates of the
    example neither candidate matches the name, and the selector falls
    back to [A2], which has the higher document count.  With the
    initials of [A1] being ["J"], [A1] matches the name and is selected
    in spite of its lower document count. *)
Theorem smith_example_exact_initials :
  inputStream [Sample.smithLine] = Some [Sample.smithJ]
  ∧ matchesName Sample.smithJ Sample.a1 = false
  ∧ matchesName Sample.smithJ Sample.a2 = false
  ∧ ResolvedAuthor.id <$> resultsAuthorStream JsNumber.ofDigits
                 [FetchedResult Sample.smithJ false Sample.twoSmiths]
    = [Some "A2"]
  ∧ matchesName Sample.smithJ Sample.a1Exact = true
  ∧ sortedEntries JsNumber.ofDigits ∅ Sample.twoSmithsExact = [Sample.a2; Sample.a1Exact]
  ∧ result JsNumber.ofDigits ∅ Sample.smithJ Sample.twoSmithsExact = Some Sample.a1Exact
  ∧ ResolvedAuthor.id <$> resultsAuthorStream JsNumber.ofDigits
                 [FetchedResult Sample.smithJ false Sample.twoSmithsExact]
    = [Some "A1"].
Proof. repeat split; vm_compute; reflexivity. Qed.

(** C6, as stated, fails on the archive: a zero-match Success that was
    read from the cache gives no row, and the sink writes nothing for
    it. *)
Lemma cached_zero_match_not_written :
  hasMatches JsNumber.ofDigits Sample.cachedNoMatch = false
  ∧ resultsAuthorStream JsNumber.ofDigits [Sample.cachedNoMatch] = []
  ∧ cachingAuthor [Sample.cachedNoMatch] = []
  ∧ ¬ ∃ w, w ∈ cachingAuthor [Sample.cachedNoMatch].
Proof.
  split; [reflexivity|]. split; [reflexivity|]. split; [reflexivity|].
  intros [w Hw]. vm_compute in Hw. by apply elem_of_nil in Hw.
Qed.

(** ** Tabular Emitter *)

Lemma flatMap_emit_Some (columns : list string) (rows : list ResolvedAuthor.t) :
  Stream.flatMapStateful emit (Some columns) rows
  = (Some columns, (λ x, stringifyObjects columns [x]) <$> rows).
Proof.
  induction rows as [|x rest IH]; [reflexivity|].
  cbn [Stream.flatMapStateful emit]. by rewrite IH.
Qed.

(** C8: a run without rows gives an empty tabular output, hence no header
    row.  Otherwise the first row fixes the columns, which are the twelve
    field names of a row in the order of the object literal; the output
    is the header row, the data row of the first row, and one data row
    for each later row, each with the cells in that column order. *)
Theorem tabular_header_then_rows :
  resultsAuthor [] = []
  ∧ (∀ r rs, resultsAuthor (r :: rs)
             = stringifyArrays [Object_keys r]
               :: stringifyObjects (Object_keys r) [r]
               :: ((λ x, stringifyObjects (Object_keys r) [x]) <$> rs))
  ∧ (∀ r, Object_keys r = rowColumns)
  ∧ (∀ r, stringifyArrays [Object_keys r] = [Some <$> rowColumns])
  ∧ (∀ x, stringifyObjects rowColumns [x] = [(ResolvedAuthor.properties x).*2]).
Proof.
  split; [reflexivity|]. split; [|by repeat split].
  intros r rs. unfold resultsAuthor. cbn [Stream.flatMapStateful emit].
  by rewrite flatMap_emit_Some.
Qed.

(** * Further properties of the script *)

(** ** Strings *)

Lemma length_append (a b : string) :
  String.length (a +:+ b) = String.length a + String.length b.
Proof.
  induction a as [|c a IH]; [reflexivity|].
  rewrite append_cons. cbn [String.length]. by rewrite IH.
Qed.

Lemma append_inj_r (a x y : string) : a +:+ x = a +:+ y → x = y.
Proof.
  induction a as [|c a IH]; [done|].
  rewrite !append_cons. intros [= H]. by apply IH.
Qed.

Lemma append_inj_l (x y s : string) : x +:+ s = y +:+ s → x = y.
Proof.
  revert y. induction x as [|c x IH]; intros [|d y] H.
  - done.
  - apply (f_equal String.length) in H.
    rewrite !length_append in H. cbn [String.length] in H. lia.
  - apply (f_equal String.length) in H.
    rewrite !length_append in H. cbn [String.length] in H. lia.
  - rewrite !append_cons in H. injection H as -> H. f_equal. by apply IH.
Qed.

Lemma includesChar_app (c : ascii) (a b : string) :
  includesChar c (a +:+ b) = includesChar c a || includesChar c b.
Proof.
  induction a as [|x a IH]; [reflexivity|].
  rewrite append_cons. cbn [includesChar]. by rewrite IH, orb_assoc.
Qed.

Lemma includesChar_replaceAll (from to : ascii) (s : string) :
  from ≠ to → includesChar from (Js.replaceAll from to s) = false.
Proof.
  intros Hne. induction s as [|x s IH]; [reflexivity|].
  cbn [Js.replaceAll includesChar]. rewrite IH, orb_false_r.
  destruct (Ascii.eqb_spec x from) as [->|Hx].
  - apply Ascii.eqb_neq. congruence.
  - by apply Ascii.eqb_neq.
Qed.

Lemma replaceAll_idemp (from to : ascii) (s : string) :
  Js.replaceAll from to (Js.replaceAll from to s) = Js.replaceAll from to s.
Proof.
  induction s as [|x s IH]; [reflexivity|].
  cbn [Js.replaceAll]. rewrite IH. f_equal.
  destruct (Ascii.eqb_spec x from) as [->|Hx].
  - by destruct (Ascii.eqb to from).
  - by destruct (Ascii.eqb_spec x from).
Qed.

Lemma replaceAll_inj (from to : ascii) (a b : string) :
  includesChar to a = false → includesChar to b = false →
  Js.replaceAll from to a = Js.replaceAll from to b → a = b.
Proof.
  revert b. induction a as [|x a IH]; intros [|y b]; cbn [Js.replaceAll includesChar];
    try done.
  intros [Hx Ha]%orb_false_elim [Hy Hb]%orb_false_elim [= Hxy Hab].
  f_equal; [|by apply IH].
  apply Ascii.eqb_neq in Hx, Hy.
  destruct (Ascii.eqb_spec x from) as [->|?], (Ascii.eqb_spec y from) as [->|?];
    congruence.
Qed.

(** ** File names *)

(** X1: The file name of a name has no space in it, and depends on the name
    up to the replacement of spaces only: two names get the same file
    exactly when they agree once their spaces are underscores.  So a name
    and its underscore form share one file, while names without
    underscores never collide. *)
Theorem getFileName_collisions (a b : string) :
  includesChar " " (getFileName a) = false
  ∧ (getFileName a = getFileName b
     ↔ Js.replaceAll " " "_" a = Js.replaceAll " " "_" b)
  ∧ getFileName (Js.replaceAll " " "_" a) = getFileName a
  ∧ (includesChar "_" a = false → includesChar "_" b = false →
     getFileName a = getFileName b → a = b).
Proof.
  assert (getFileName a = getFileName b
          ↔ Js.replaceAll " " "_" a = Js.replaceAll " " "_" b) as Hiff.
  { unfold getFileName. split; [|by intros ->].
    intros H%append_inj_r. by apply append_inj_l in H. }
  split; [|split; [done|split]].
  - unfold getFileName. rewrite !includesChar_app, includesChar_replaceAll; done.
  - unfold getFileName. by rewrite replaceAll_idemp.
  - intros Ha Hb H%Hiff. by eapply replaceAll_inj.
Qed.

(** ** White space *)

Lemma trimStart_head (s : string) :
  Js.trimStart s = EmptyString
  ∨ ∃ c r, Js.trimStart s = String c r ∧ Js.isWhiteSpace c = false.
Proof.
  induction s as [|c r IH]; [by left|].
  cbn [Js.trimStart]. destruct (Js.isWhiteSpace c) eqn:Hc; [done|].
  right. by exists c, r.
Qed.

Lemma trimStart_fixed (c : ascii) (r : string) :
  Js.isWhiteSpace c = false → Js.trimStart (String c r) = String c r.
Proof. intros Hc. cbn [Js.trimStart]. by rewrite Hc. Qed.

Lemma trimEnd_head (c : ascii) (r : string) :
  Js.isWhiteSpace c = false → ∃ r', Js.trimEnd (String c r) = String c r'.
Proof.
  intros Hc. cbn [Js.trimEnd]. rewrite Hc. destruct (Js.trimEnd r); eauto.
Qed.

Lemma trimEnd_idemp (s : string) : Js.trimEnd (Js.trimEnd s) = Js.trimEnd s.
Proof.
  induction s as [|c r IH]; [reflexivity|].
  cbn [Js.trimEnd]. destruct (Js.trimEnd r) as [|d r'] eqn:Hr.
  - destruct (Js.isWhiteSpace c) eqn:Hc; [reflexivity|].
    cbn [Js.trimEnd]. by rewrite Hc.
  - change (Js.trimEnd (String c (String d r'))) with
      (match Js.trimEnd (String d r') with
       | EmptyString => if Js.isWhiteSpace c then EmptyString else String c EmptyString
       | r'' => String c r''
       end).
    by rewrite IH.
Qed.

Lemma trim_head (s : string) :
  Js.trim s = EmptyString
  ∨ ∃ c r, Js.trim s = String c r ∧ Js.isWhiteSpace c = false.
Proof.
  unfold Js.trim. destruct (trimStart_head s) as [->|(c & r & -> & Hc)]; [by left|].
  right. destruct (trimEnd_head c r Hc) as [r' ->]. by exists c, r'.
Qed.

(** Trimming a trimmed string changes nothing. *)
Lemma trim_idemp (s : string) : Js.trim (Js.trim s) = Js.trim s.
Proof.
  destruct (trim_head s) as [H|(c & r & H & Hc)].
  - by rewrite H.
  - unfold Js.trim at 1. rewrite H, (trimStart_fixed c r Hc), <- H.
    unfold Js.trim. apply trimEnd_idemp.
Qed.

Lemma trim_nonempty (c : ascii) (r : string) :
  Js.isWhiteSpace c = false → Js.trim (String c r) ≠ EmptyString.
Proof.
  intros Hc. unfold Js.trim. rewrite (trimStart_fixed c r Hc).
  by destruct (trimEnd_head c r Hc) as [r' ->].
Qed.

Lemma split_head (sep c : ascii) (r : string) :
  Ascii.eqb c sep = false → ∃ p ps, Js.split sep (String c r) = String c p :: ps.
Proof.
  intros Hc. cbn [Js.split]. rewrite Hc.
  destruct (split_cons sep r) as (p & ps & ->). eauto.
Qed.

(** ** Query Normalizer, continued *)

Lemma mapStateful_elem {S A B} (f : S → A → option (S * B)) (xs : list A) :
  ∀ s ys y, Stream.mapStateful f s xs = Some ys → y ∈ ys →
    ∃ s0 x s1, x ∈ xs ∧ f s0 x = Some (s1, y).
Proof.
  induction xs as [|x rest IH]; intros s ys y; cbn [Stream.mapStateful].
  - intros [= <-] Hy. by apply elem_of_nil in Hy.
  - destruct (f s x) as [[s1 y0]|] eqn:Hf; [|done].
    destruct (Stream.mapStateful f s1 rest) as [ys'|] eqn:Hrest; [|done].
    intros [= <-] [->|Hy]%elem_of_cons.
    + exists s, x, s1. split; [left|done].
    + destruct (IH _ _ _ Hrest Hy) as (s0 & x' & s1' & Hx' & Hf').
      exists s0, x', s1'. split; [by right|done].
Qed.

Lemma elem_of_nonBlankLines (lines : list string) (value : string) :
  value ∈ nonBlankLines lines
  ↔ value ≠ EmptyString ∧ ∃ line, line ∈ lines ∧ value = Js.trim line.
Proof.
  unfold nonBlankLines, Stream.filter, Stream.map, nonBlank.
  rewrite list_elem_of_In, filter_In, <- list_elem_of_In, list_elem_of_fmap.
  rewrite negb_true_iff, String.eqb_neq. split.
  - intros [(line & -> & Hline) Hne]. split; [done|]. by exists line.
  - intros [Hne (line & Hline & ->)]. split; [|done]. by exists line.
Qed.

(** The fields of the record that one call of the callback returns. *)
Lemma normalize_fields (count count' : nat) (value : string) (q : QueryRecord) :
  normalize count value = Some (count', q) →
  Some (name q) = Js.trim <$> Js.split Js.TAB value !! 0%nat
  ∧ lastName q = Js.trim <$> Js.splitLimit "," 2 (name q) !! 0%nat
  ∧ firstName q = Js.trim <$> Js.splitLimit "," 2 (name q) !! 1%nat
  ∧ subjectArea q = Js.trim <$> Js.split Js.TAB value !! 1%nat
  ∧ ind q = Js.trim <$> Js.split Js.TAB value !! 2%nat
  ∧ nPub q = Js.trim <$> Js.split Js.TAB value !! 3%nat.
Proof.
  unfold normalize. rewrite !list_lookup_fmap.
  destruct (Js.split Js.TAB value !! 0%nat) as [col|]; [|done].
  cbn [fmap option_fmap option_map]. intros [= _ <-].
  cbn [name lastName firstName subjectArea ind nPub].
  by rewrite !list_lookup_fmap.
Qed.

Lemma inputStream_elem (lines : list string) (qs : list QueryRecord) (q : QueryRecord) :
  inputStream lines = Some qs → q ∈ qs →
  ∃ count count' value,
    value ∈ nonBlankLines lines ∧ normalize count value = Some (count', q).
Proof.
  intros Hrun Hq. unfold inputStream in Hrun. fold (nonBlankLines lines) in Hrun.
  destruct (mapStateful_elem _ _ _ _ _ Hrun Hq) as (count & value & count' & Hv & Hn).
  by exists count, count', value.
Qed.

(** A value that reaches the callback is trimmed and not blank, so it
    starts with a character that is neither white space nor a tab, and so
    does its first column. *)
Lemma inputStream_name_nonempty (lines : list string) (qs : list QueryRecord)
    (q : QueryRecord) :
  inputStream lines = Some qs → q ∈ qs → name q ≠ EmptyString.
Proof.
  intros Hrun Hq.
  destruct (inputStream_elem _ _ _ Hrun Hq) as (count & count' & value & Hv & Hn).
  apply elem_of_nonBlankLines in Hv as (Hne & line & _ & Hv).
  destruct (trim_head line) as [H|(c & r & H & Hc)]; [congruence|].
  rewrite H in Hv. subst value.
  apply normalize_fields in Hn as (Hname & _).
  assert (Ascii.eqb c Js.TAB = false) as Htab.
  { apply Ascii.eqb_neq. intros ->. done. }
  destruct (split_head Js.TAB c r Htab) as (p & ps & Hsplit).
  rewrite Hsplit in Hname. cbn in Hname. injection Hname as ->.
  by apply trim_nonempty.
Qed.

(** X2: Every record that the normalizer hands on has a name that is not
    empty. *)
Theorem normalized_name_not_empty (lines : list string) (qs : list QueryRecord)
    (q : QueryRecord) :
  inputStream lines = Some qs → q ∈ qs → name q ≠ EmptyString.
Proof. apply inputStream_name_nonempty. Qed.

Lemma normalized_name_not_empty_witness :
  name Sample.smithJ ≠ EmptyString.
Proof.
  apply (normalized_name_not_empty [Sample.smithLine] [Sample.smithJ]).
  - vm_compute. reflexivity.
  - apply list_elem_of_singleton. reflexivity.
Defined.

(** X3: Every field of a record is free of leading and trailing white
    space: trimming it again changes nothing. *)
Theorem normalized_fields_trimmed (lines : list string) (qs : list QueryRecord)
    (q : QueryRecord) :
  inputStream lines = Some qs → q ∈ qs →
  Js.trim (name q) = name q
  ∧ Js.trim <$> lastName q = lastName q
  ∧ Js.trim <$> firstName q = firstName q
  ∧ Js.trim <$> subjectArea q = subjectArea q
  ∧ Js.trim <$> ind q = ind q
  ∧ Js.trim <$> nPub q = nPub q.
Proof.
  intros Hrun Hq.
  destruct (inputStream_elem _ _ _ Hrun Hq) as (count & count' & value & _ & Hn).
  apply normalize_fields in Hn as (Hname & -> & -> & -> & -> & ->).
  assert (∀ o : option string, Js.trim <$> (Js.trim <$> o) = Js.trim <$> o) as Hopt.
  { intros [s|]; [|done]. cbn. by rewrite trim_idemp. }
  rewrite !Hopt. split; [|done].
  destruct (Js.split Js.TAB value !! 0%nat) as [col|]; [|done].
  cbn in Hname. injection Hname as ->. apply trim_idemp.
Qed.

Lemma normalized_fields_trimmed_witness :
  Js.trim (name Sample.smithJ) = name Sample.smithJ
  ∧ Js.trim <$> lastName Sample.smithJ = lastName Sample.smithJ
  ∧ Js.trim <$> firstName Sample.smithJ = firstName Sample.smithJ
  ∧ Js.trim <$> subjectArea Sample.smithJ = subjectArea Sample.smithJ
  ∧ Js.trim <$> ind Sample.smithJ = ind Sample.smithJ
  ∧ Js.trim <$> nPub Sample.smithJ = nPub Sample.smithJ.
Proof.
  apply (normalized_fields_trimmed [Sample.smithLine] [Sample.smithJ]).
  - vm_compute. reflexivity.
  - apply list_elem_of_singleton. reflexivity.
Defined.

Lemma trimStart_repeat_space (k : nat) (s : string) :
  Js.trimStart (Js.repeatChar k " " +:+ s) = Js.trimStart s.
Proof. induction k as [|k IH]; [reflexivity|]. cbn [Js.repeatChar]. by rewrite append_cons. Qed.

Lemma trimStart_ofNat (n : nat) : Js.trimStart (Js.ofNat n) = Js.ofNat n.
Proof. unfold Js.ofNat. by destruct (Nat.to_uint n). Qed.

Lemma ofNat_inj (a b : nat) : Js.ofNat a = Js.ofNat b → a = b.
Proof.
  unfold Js.ofNat. intros H.
  apply (f_equal NilEmpty.uint_of_string) in H. rewrite !NilEmpty.usu in H.
  injection H as H. apply (f_equal Nat.of_uint) in H.
  by rewrite !Unsigned.of_to in H.
Qed.

Lemma length_repeatChar (k : nat) (c : ascii) : String.length (Js.repeatChar k c) = k.
Proof. induction k as [|k IH]; [reflexivity|]. cbn. by rewrite IH. Qed.

Lemma length_padStart (width : nat) (fill : ascii) (s : string) :
  String.length (Js.padStart width fill s) = width `max` String.length s.
Proof. unfold Js.padStart. rewrite length_append, length_repeatChar. lia. Qed.

Lemma inputStream_lookup (lines : list string) (qs : list QueryRecord)
    (i : nat) (q : QueryRecord) :
  inputStream lines = Some qs → qs !! i = Some q →
  ∃ value, nonBlankLines lines !! i = Some value ∧ normalized (1 + i) value q.
Proof.
  intros Hrun Hq. unfold inputStream in Hrun. fold (nonBlankLines lines) in Hrun.
  destruct (mapStateful_normalize (nonBlankLines lines) 1) as (qs' & Hrun' & Hlen & Hall).
  rewrite Hrun in Hrun'. injection Hrun' as <-.
  destruct (lookup_lt_is_Some_2 (nonBlankLines lines) i) as [value Hvalue].
  { rewrite <- Hlen. by eapply lookup_lt_Some. }
  destruct (Hall i value Hvalue) as (q' & Hq' & Hn).
  exists value. split; [done|]. congruence.
Qed.

(** X4: The index of a record is its 1-based position among the non-blank
    lines, written in decimal and right-aligned with spaces to a width of
    at least five; so the records of a run have pairwise different
    indices. *)
Theorem index_identifies_record (lines : list string) (qs : list QueryRecord) :
  inputStream lines = Some qs →
  NoDup (index <$> qs)
  ∧ ∀ i q, qs !! i = Some q →
      Js.trimStart (index q) = Js.ofNat (S i)
      ∧ String.length (index q) = 5 `max` String.length (Js.ofNat (S i)).
Proof.
  intros Hrun.
  assert (∀ i q, qs !! i = Some q → index q = Js.padStart 5 " " (Js.ofNat (S i))) as Hidx.
  { intros i q Hq. destruct (inputStream_lookup _ _ _ _ Hrun Hq) as (value & _ & Hn).
    by destruct Hn as (_ & _ & _ & _ & _ & ->). }
  assert (∀ i q, qs !! i = Some q → Js.trimStart (index q) = Js.ofNat (S i)) as Htrim.
  { intros i q Hq. rewrite (Hidx i q Hq). unfold Js.padStart.
    by rewrite trimStart_repeat_space, trimStart_ofNat. }
  split.
  - apply NoDup_alt. intros i j x. rewrite !list_lookup_fmap.
    destruct (qs !! i) as [qi|] eqn:Hi; [|done].
    destruct (qs !! j) as [qj|] eqn:Hj; [|done].
    cbn. intros [= <-] [= Hij].
    apply Htrim in Hi, Hj. rewrite Hij, Hi in Hj.
    apply ofNat_inj in Hj. lia.
  - intros i q Hq. split; [by apply Htrim|].
    rewrite (Hidx i q Hq). apply length_padStart.
Qed.

Lemma index_identifies_record_witness :
  NoDup (index <$> [Sample.smithJ; Sample.smithK])
  ∧ ∀ i q, [Sample.smithJ; Sample.smithK] !! i = Some q →
      Js.trimStart (index q) = Js.ofNat (S i)
      ∧ String.length (index q) = 5 `max` String.length (Js.ofNat (S i)).
Proof.
  apply (index_identifies_record
           [Sample.smithLine;
            "Smith, K." +:+ Sample.tab +:+ "ENGI" +:+ Sample.tab +:+ "2"
              +:+ Sample.tab +:+ "40"]).
  vm_compute. reflexivity.
Defined.

Lemma nonBlankLines_idemp (lines : list string) :
  nonBlankLines (nonBlankLines lines) = nonBlankLines lines.
Proof.
  unfold nonBlankLines, Stream.filter, Stream.map.
  induction lines as [|l rest IH]; [reflexivity|].
  cbn [fmap list_fmap List.filter].
  destruct (nonBlank (Js.trim l)) eqn:Hl; [|exact IH].
  cbn [fmap list_fmap List.filter]. rewrite trim_idemp, Hl. f_equal. exact IH.
Qed.

(** X5: Blank lines and the white space around a line do not count: the
    records of an input are those of its trimmed, non-blank lines, and a
    line made of white space can be put in or taken out anywhere without
    changing any record, its index included. *)
Theorem blank_lines_ignored (lines : list string) :
  inputStream (nonBlankLines lines) = inputStream lines
  ∧ ∀ before blank after, lines = before ++ blank :: after →
      Js.trim blank = EmptyString →
      inputStream lines = inputStream (before ++ after).
Proof.
  split.
  - unfold inputStream. fold (nonBlankLines (nonBlankLines lines)).
    fold (nonBlankLines lines). by rewrite nonBlankLines_idemp.
  - intros before blank after -> Hblank. unfold inputStream, Stream.filter, Stream.map.
    rewrite !fmap_app, !List.filter_app. cbn [fmap list_fmap List.filter].
    by rewrite Hblank.
Qed.

(** ** Fetch Stage, continued *)

Section FetchStageMore.

Variable readCacheFile : string → Completion ScopusSearchResponseBody.
Variable search : string → Completion ScopusSearchResponseBody.

Lemma fetch_cache_hit (q : QueryRecord) (body : ScopusSearchResponseBody) :
  name q ≠ EmptyString → readCacheFile (getCache (name q)) = Normal body →
  fetch readCacheFile search q = FetchedResult q true body.
Proof.
  intros Hname Hread. unfold fetch, tryFetch, loadBody.
  destruct (String.eqb_spec (name q) EmptyString); [done|]. by rewrite Hread.
Qed.

Lemma fetch_isCached (q : QueryRecord) :
  isCachedOf (fetch readCacheFile search q) = true
  ↔ name q ≠ EmptyString ∧ ∃ body, readCacheFile (getCache (name q)) = Normal body.
Proof.
  split.
  - unfold fetch, tryFetch, loadBody.
    destruct (String.eqb_spec (name q) EmptyString) as [|Hname]; [done|].
    destruct (readCacheFile _) as [body|miss]; [by eauto|].
    by destruct (search _).
  - intros (Hname & body & Hread). by rewrite (fetch_cache_hit q body).
Qed.

(** What a result of the stage tells about the two calls behind it. *)
Lemma fetch_cases (q : QueryRecord) :
  match fetch readCacheFile search q with
  | FetchedResult q' isCached body =>
      q' = q ∧ name q ≠ EmptyString
      ∧ if isCached then readCacheFile (getCache (name q)) = Normal body
        else (∃ miss, readCacheFile (getCache (name q)) = Throw miss)
             ∧ search (buildQuery q) = Normal body
  | FetchedError q' isCached body =>
      q' = q ∧ isCached = false
      ∧ ∃ err, body = wrapError (buildQuery q) err
             ∧ if String.eqb (name q) EmptyString
               then err = ErrorObj "The name is empty" Undefined
               else (∃ miss, readCacheFile (getCache (name q)) = Throw miss)
                    ∧ search (buildQuery q) = Throw err
  end.
Proof.
  unfold fetch, tryFetch, loadBody.
  destruct (String.eqb_spec (name q) EmptyString) as [Hname|Hname].
  - repeat split. by eexists.
  - destruct (readCacheFile _) as [body|miss]; [done|].
    destruct (search _) as [body|err].
    + repeat split; [done|]. by eexists.
    + repeat split. exists err. split; [done|]. split; [|done]. by eexists.
Qed.

End FetchStageMore.

(** X7: A result is marked as cached exactly when the record has a name and
    the cache file of that name was read and parsed.  Such a result does
    not depend on the gateway; and the result for a record without a name
    depends neither on the cache nor on the gateway. *)
Theorem fetch_cached_iff_cache_read
    (readCacheFile search : string → Completion ScopusSearchResponseBody)
    (q : QueryRecord) :
  (isCachedOf (fetch readCacheFile search q) = true
   ↔ name q ≠ EmptyString
     ∧ ∃ body, readCacheFile (getCache (name q)) = Normal body
             ∧ fetch readCacheFile search q = FetchedResult q true body)
  ∧ (isCachedOf (fetch readCacheFile search q) = true →
     ∀ search', fetch readCacheFile search' q = fetch readCacheFile search q)
  ∧ (name q = EmptyString →
     ∀ readCacheFile' search',
       fetch readCacheFile' search' q = fetch readCacheFile search q).
Proof.
  split; [|split].
  - rewrite fetch_isCached. split.
    + intros (Hname & body & Hread). split; [done|]. exists body.
      split; [done|]. by apply fetch_cache_hit.
    + intros (Hname & body & Hread & _). eauto.
  - intros (Hname & body & Hread)%fetch_isCached search'.
    by rewrite !(fetch_cache_hit _ _ q body).
  - intros Hname rc' search'. unfold fetch, tryFetch. by rewrite Hname.
Qed.


(** X9: In a run the validation of the name never fails: every Failure comes
    from the gateway after a cache miss, and every Success is either read
    from the cache or answered by the gateway after a miss. *)
Theorem run_results_classified
    (readCacheFile search : string → Completion ScopusSearchResponseBody)
    (lines : list string) (qs : list QueryRecord) (r : FetchResult) :
  inputStream lines = Some qs →
  r ∈ authorStream readCacheFile search qs →
  name (queryOf r) ≠ EmptyString
  ∧ match r with
    | FetchedResult q isCached body =>
        if isCached then readCacheFile (getCache (name q)) = Normal body
        else (∃ miss, readCacheFile (getCache (name q)) = Throw miss)
             ∧ search (buildQuery q) = Normal body
    | FetchedError q isCached body =>
        isCached = false
        ∧ ∃ miss err, readCacheFile (getCache (name q)) = Throw miss
                    ∧ search (buildQuery q) = Throw err
                    ∧ body = wrapError (buildQuery q) err
    end.
Proof.
  intros Hrun (q & -> & Hq)%list_elem_of_fmap.
  pose proof (inputStream_name_nonempty _ _ _ Hrun Hq) as Hname.
  rewrite fetch_keeps_record. split; [done|].
  pose proof (fetch_cases readCacheFile search q) as Hcases.
  destruct (fetch readCacheFile search q) as [q' c body|q' c body].
  - destruct Hcases as (-> & _ & H). exact H.
  - destruct Hcases as (-> & -> & err & -> & H). split; [done|].
    destruct (String.eqb_spec (name q) EmptyString); [done|].
    destruct H as [[miss Hmiss] Hsearch]. by exists miss, err.
Qed.

Lemma run_results_classified_witness :
  name Sample.smithJ ≠ EmptyString
  ∧ (∃ miss, (λ _, Throw Sample.enoent : Completion ScopusSearchResponseBody)
               (getCache (name Sample.smithJ)) = Throw miss)
    ∧ (λ _, Normal Sample.twoSmiths) (buildQuery Sample.smithJ)
      = Normal Sample.twoSmiths.
Proof.
  apply (run_results_classified (λ _, Throw Sample.enoent) (λ _, Normal Sample.twoSmiths)
           [Sample.smithLine] [Sample.smithJ]
           (FetchedResult Sample.smithJ false Sample.twoSmiths)).
  - vm_compute. reflexivity.
  - apply list_elem_of_singleton. reflexivity.
Defined.

(** ** Archive Sink, continued *)

Lemma append_assoc (a b c : string) : (a +:+ b) +:+ c = a +:+ (b +:+ c).
Proof.
  induction a as [|x a IH]; [reflexivity|].
  by rewrite !append_cons, IH.
Qed.

Lemma prefix_append (a b : string) : String.prefix a (a +:+ b) = true.
Proof.
  induction a as [|c a IH]; [by destruct b|].
  rewrite append_cons. cbn [String.prefix].
  by destruct (Ascii.ascii_dec c c).
Qed.

Lemma length_replaceAll (from to : ascii) (s : string) :
  String.length (Js.replaceAll from to s) = String.length s.
Proof. induction s as [|c s IH]; [reflexivity|]. cbn. by rewrite IH. Qed.

Lemma getOuput_inj_length (a b : string) :
  getOuput a = getOuput b → String.length a = String.length b.
Proof.
  unfold getOuput, getFileName.
  intros H%append_inj_r%append_inj_r%append_inj_r%append_inj_l.
  apply (f_equal String.length) in H. by rewrite !length_replaceAll in H.
Qed.

Lemma archiveName_error_longer (r : FetchResult) :
  isErrorType r = true →
  String.length (name (queryOf r)) < String.length (archiveName r).
Proof.
  intros Herr. unfold archiveName. rewrite Herr, !length_append.
  destruct (String.eqb_spec (name (queryOf r)) EmptyString) as [->|_];
    cbn [String.length]; lia.
Qed.

(** X11: The sink and the cache meet on the file of a name.  A Success for a
    named record that did not come from the cache is written to the very
    path from which the cache reads that name; a Failure is never written
    to the cache path of its own record. *)
Theorem sink_fills_cache_slot (r : FetchResult) :
  (isErrorType r = false → name (queryOf r) ≠ EmptyString →
   fw_path <$> sinkWrite r
   = if isCachedOf r then [] else [getCache (name (queryOf r))])
  ∧ (isErrorType r = true →
     Forall (λ w, fw_path w ≠ getCache (name (queryOf r))) (sinkWrite r)).
Proof.
  rewrite sinkWrite_cases. split.
  - intros Hok Hname. destruct (isCachedOf r); [done|].
    cbn [fmap list_fmap fw_path]. unfold archiveName. rewrite Hok.
    by destruct (String.eqb_spec (name (queryOf r)) EmptyString).
  - intros Herr. destruct (isCachedOf r); constructor; [|constructor].
    cbn [fw_path]. intros H.
    apply (getOuput_inj_length (archiveName r) (name (queryOf r))) in H.
    pose proof (archiveName_error_longer r Herr). lia.
Qed.

(** X12: Every file that the sink writes lies in the output directory under a
    name that starts with [au-name-]; none of them is the result file of
    the tabular output. *)
Theorem sink_paths_stay_clear (s : list FetchResult) :
  Forall (λ w, String.prefix (outputDir +:+ "/au-name-") (fw_path w) = true
             ∧ fw_path w ≠ resultFile)
         (cachingAuthor s).
Proof.
  apply Forall_forall. intros w (r & Hw & _)%list_elem_of_bind.
  rewrite sinkWrite_cases in Hw.
  destruct (isCachedOf r); [by apply elem_of_nil in Hw|].
  apply list_elem_of_singleton in Hw as ->. cbn [fw_path]. split.
  - unfold getOuput, getFileName.
    change (outputDir +:+ "/" +:+ "au-name-"
              +:+ Js.replaceAll " " "_" (archiveName r) +:+ ".json")
      with (outputDir +:+ "/au-name-"
              +:+ (Js.replaceAll " " "_" (archiveName r) +:+ ".json")).
    rewrite <- append_assoc. apply prefix_append.
  - unfold getOuput, resultFile, getFileName.
    intros H%append_inj_r%append_inj_r.
    unfold configName in H. rewrite !append_cons in H. discriminate H.
Qed.

(** ** Runs on a warm cache *)

Lemma cachingAuthor_all_cached (s : list FetchResult) :
  Forall (λ r, isCachedOf r = true) s → cachingAuthor s = [].
Proof.
  unfold cachingAuthor. induction 1 as [|r s Hr _ IH]; [reflexivity|].
  cbn [mbind list_bind]. by rewrite sinkWrite_cases, Hr, IH.
Qed.

(** X13: When the cache holds the file of every name of the input, a run
    writes no archive file and its whole output is the same whatever the
    gateway would answer. *)
Theorem warm_cache_run
    (readCacheFile search search' : string → Completion ScopusSearchResponseBody)
    (toNumber : string → JsNumber.t) (lines : list string) (qs : list QueryRecord) :
  inputStream lines = Some qs →
  (∀ q, q ∈ qs → ∃ body, readCacheFile (getCache (name q)) = Normal body) →
  ∃ out, run readCacheFile search toNumber lines = Some out
       ∧ archived out = []
       ∧ run readCacheFile search' toNumber lines = Some out.
Proof.
  intros Hrun Hwarm.
  assert (∀ q, q ∈ qs → ∀ gateway, ∃ body,
            fetch readCacheFile gateway q = FetchedResult q true body
            ∧ readCacheFile (getCache (name q)) = Normal body) as Hhit.
  { intros q Hq gateway. destruct (Hwarm q Hq) as [body Hbody].
    exists body. split; [|done]. apply fetch_cache_hit; [|done].
    by eapply inputStream_name_nonempty. }
  assert (authorStream readCacheFile search' qs = authorStream readCacheFile search qs)
    as Hsame.
  { unfold authorStream, Stream.map. apply list_fmap_ext.
    intros i q Hq%list_elem_of_lookup_2.
    destruct (Hhit q Hq search) as (body & -> & Hbody).
    destruct (Hhit q Hq search') as (body' & -> & Hbody').
    congruence. }
  unfold run. rewrite Hrun. cbn [mbind option_bind tee]. rewrite Hsame.
  eexists. split; [reflexivity|]. split; [|reflexivity].
  cbn [archived]. apply cachingAuthor_all_cached, Forall_forall.
  intros r (q & -> & Hq)%list_elem_of_fmap.
  by destruct (Hhit q Hq search) as (body & -> & _).
Qed.

Lemma warm_cache_run_witness :
  ∃ out, run (λ _, Normal Sample.twoSmiths) (λ _, Throw Sample.quota)
           JsNumber.ofDigits [Sample.smithLine] = Some out
       ∧ archived out = []
       ∧ run (λ _, Normal Sample.twoSmiths) (λ _, Normal Sample.noMatch)
           JsNumber.ofDigits [Sample.smithLine] = Some out.
Proof.
  apply (warm_cache_run (λ _, Normal Sample.twoSmiths) (λ _, Throw Sample.quota)
           (λ _, Normal Sample.noMatch) JsNumber.ofDigits
           [Sample.smithLine] [Sample.smithJ]).
  - vm_compute. reflexivity.
  - intros q _. eexists. reflexivity.
Defined.

(** ** Sorting, continued *)

Section SortStable.
Context {A : Type} (compareFn : A → A → Z) (inClass : A → bool).

(** Two elements of the class never compare as out of order. *)
Hypothesis class_ties : ∀ x y,
  inClass x = true → inClass y = true → ¬ (0 < compareFn x y)%Z.



End SortStable.





(** ** Candidate Selector, continued *)

Section SelectorMore.

Variable toNumber : string → JsNumber.t.




Lemma selectFrom_trace (pre : list FetchResult) :
  ∀ idSet : gset (option string),
  ∃ chosen : list (FetchResult * Entry.t),
    chosen.*1 `sublist_of` pre
    ∧ (selectFrom toNumber idSet pre).2 = rowOf <$> chosen
    ∧ Forall (λ choice,
                hasMatches toNumber choice.1 = true
                ∧ ∃ q isCached body,
                    choice.1 = FetchedResult q isCached body
                    ∧ choice.2 ∈ entry (search_results body)
                    ∧ externalId choice.2 ∉ idSet)
             chosen.
Proof.
  induction pre as [|r pre IH]; intros idSet.
  - exists []. split; [done|]. by split.
  - unfold selectFrom, Stream.filter in *. cbn [List.filter].
    destruct (hasMatches toNumber r) eqn:Hr.
    + destruct r as [q c body|]; [|done].
      cbn [omap list_omap asResult Stream.flatMapStateful].
      destruct (result toNumber idSet q body) as [e|] eqn:Hres.
      * rewrite (select_Some _ _ _ _ _ Hres).
        destruct (IH ({[ externalId e ]} ∪ idSet)) as (chosen & Hsub & Hrows & Hall).
        destruct (Stream.flatMapStateful _ _ _) as [final rows]. cbn [snd] in *.
        exists ((FetchedResult q c body, e) :: chosen). split; [|split].
        -- cbn. by apply sublist_skip.
        -- cbn. by rewrite Hrows.
        -- apply result_elem, elem_of_sortedEntries in Hres as [Hin Hnew].
           constructor.
           ++ split; [done|]. by exists q, c, body.
           ++ eapply Forall_impl; [exact Hall|].
              intros choice (Hch & q' & c' & body' & Hq & Hin' & Hfree).
              split; [done|]. exists q', c', body'. set_solver.
      * rewrite (select_None _ _ _ _ Hres).
        destruct (IH idSet) as (chosen & Hsub & Hrows & Hall).
        destruct (Stream.flatMapStateful _ _ _) as [final rows]. cbn [snd] in *.
        exists chosen. split; [by apply sublist_cons|]. by split.
    + destruct (IH idSet) as (chosen & Hsub & Hrows & Hall).
      exists chosen. split; [by apply sublist_cons|]. by split.
Qed.

End SelectorMore.




(** X16: A record yields a row unless every candidate of its response is
    already claimed, and never more than one row. *)
Theorem select_emits_unless_all_claimed (toNumber : string → JsNumber.t)
    (idSet : gset (option string)) (q : QueryRecord) (body : ScopusSearchResponseBody) :
  ((select toNumber idSet (q, body)).2 = []
   ↔ ∀ x, x ∈ entry (search_results body) → externalId x ∈ idSet)
  ∧ length (select toNumber idSet (q, body)).2 ≤ 1
  ∧ ((select toNumber idSet (q, body)).2 = []
     → (select toNumber idSet (q, body)).1 = idSet).
Proof.
  rewrite <- (result_None toNumber idSet q body). unfold select.
  destruct (result toNumber idSet q body) as [e|]; cbn [fst snd length].
  - split; [done|]. split; [lia|done].
  - split; [done|]. split; [lia|done].
Qed.

(** X17: Every row traces back to a result of the stream: the rows are, in
    the order of the stream, the rows of some of its results, each of them
    a Success that passed the gate, paired with a candidate of its own
    response whose id was not in the dedup set at the start. *)
Theorem rows_trace_back_to_results (toNumber : string → JsNumber.t)
    (idSet : gset (option string)) (pre : list FetchResult) :
  ∃ chosen : list (FetchResult * Entry.t),
    chosen.*1 `sublist_of` pre
    ∧ (selectFrom toNumber idSet pre).2 = rowOf <$> chosen
    ∧ Forall (λ choice,
                hasMatches toNumber choice.1 = true
                ∧ ∃ q isCached body,
                    choice.1 = FetchedResult q isCached body
                    ∧ choice.2 ∈ entry (search_results body)
                    ∧ externalId choice.2 ∉ idSet)
             chosen.
Proof. apply selectFrom_trace. Qed.

(** ** External identifiers *)

Lemma split_no_sep (sep : ascii) (s : string) :
  includesChar sep s = false → Js.split sep s = [s].
Proof.
  induction s as [|c r IH]; [done|].
  cbn [includesChar Js.split]. intros [-> Hr]%orb_false_elim. by rewrite IH.
Qed.

Lemma split_app_sep (sep : ascii) (p r : string) :
  includesChar sep p = false →
  Js.split sep (p +:+ String sep r) = p :: Js.split sep r.
Proof.
  induction p as [|c p IH].
  - intros _. change (EmptyString +:+ String sep r) with (String sep r).
    cbn [Js.split]. by rewrite Ascii.eqb_refl.
  - cbn [includesChar]. intros [Hc Hp]%orb_false_elim.
    rewrite append_cons. cbn [Js.split]. by rewrite Hc, IH.
Qed.

Lemma includesChar_cut (sep : ascii) (s : string) :
  includesChar sep s = true →
  ∃ p r, includesChar sep p = false ∧ s = p +:+ String sep r.
Proof.
  induction s as [|c s IH]; [done|]. cbn [includesChar].
  destruct (Ascii.eqb_spec c sep) as [->|Hc].
  - intros _. by exists EmptyString, s.
  - intros (p & r & Hp & ->)%IH. exists (String c p), r. split; [|done].
    cbn [includesChar]. rewrite Hp. by apply Ascii.eqb_neq in Hc as ->.
Qed.

(** X18: The external id of a candidate is the part of its identifier between
    the first colon and the second one, or the end: it is [undefined]
    exactly when the identifier has no colon, and what follows a second
    colon is dropped. *)
Theorem externalId_between_colons (e : Entry.t) :
  (externalId e = None ↔ includesChar ":" (Entry.dc_identifier e) = false)
  ∧ (∀ p i, includesChar ":" p = false → includesChar ":" i = false →
       Entry.dc_identifier e = p +:+ ":" +:+ i → externalId e = Some i)
  ∧ (∀ p i rest, includesChar ":" p = false → includesChar ":" i = false →
       Entry.dc_identifier e = p +:+ ":" +:+ i +:+ ":" +:+ rest →
       externalId e = Some i).
Proof.
  unfold externalId. split; [|split].
  - split.
    + destruct (includesChar ":" (Entry.dc_identifier e)) eqn:Hc; [|done].
      destruct (includesChar_cut _ _ Hc) as (p & r & Hp & ->).
      rewrite (split_app_sep _ _ _ Hp).
      by destruct (split_cons ":" r) as (a & b & ->).
    + intros Hc. by rewrite (split_no_sep _ _ Hc).
  - intros p i Hp Hi ->. change (p +:+ ":" +:+ i) with (p +:+ String ":" i).
    by rewrite (split_app_sep _ _ _ Hp), (split_no_sep _ _ Hi).
  - intros p i rest Hp Hi ->.
    change (p +:+ ":" +:+ i +:+ ":" +:+ rest)
      with (p +:+ String ":" (i +:+ String ":" rest)).
    by rewrite (split_app_sep _ _ _ Hp), (split_app_sep _ _ _ Hi).
Qed.

(** ** Tabular Emitter, continued *)

Lemma stringifyObjects_cells (r x : ResolvedAuthor.t) :
  stringifyObjects (Object_keys r) [x] = [(ResolvedAuthor.properties x).*2].
Proof. reflexivity. Qed.

(** The lines of a non-empty output: the header, then the cells of each
    row. *)
Lemma tabular_lines (r : ResolvedAuthor.t) (rs : list ResolvedAuthor.t) :
  csvLines (resultsAuthor (r :: rs))
  = (Some <$> rowColumns) :: ((λ x, (ResolvedAuthor.properties x).*2) <$> (r :: rs)).
Proof.
  unfold csvLines, resultsAuthor. cbn [Stream.flatMapStateful emit].
  rewrite flatMap_emit_Some. cbn [snd app concat]. rewrite stringifyObjects_cells.
  cbn [app fmap list_fmap]. do 2 f_equal.
  induction rs as [|x rs IH]; [reflexivity|].
  cbn [fmap list_fmap concat]. rewrite stringifyObjects_cells. cbn [app].
  f_equal. exact IH.
Qed.

(** X19: The tabular output is a rectangle of twelve columns, with one line
    per row below the header line, and the first cell of the line of a
    row is the id of that row. *)
Theorem tabular_is_rectangular (rows : list ResolvedAuthor.t) :
  Forall (λ line, length line = 12) (csvLines (resultsAuthor rows))
  ∧ length (csvLines (resultsAuthor rows))
    = (if rows is [] then 0 else S (length rows))
  ∧ idColumn (resultsAuthor rows) = (λ x, Some (ResolvedAuthor.id x)) <$> rows.
Proof.
  destruct rows as [|r rs]; [by repeat split|].
  unfold idColumn. rewrite tabular_lines. split; [|split].
  - constructor; [reflexivity|]. apply Forall_fmap, Forall_true. by intros x.
  - cbn [length]. by rewrite length_fmap.
  - cbn [drop]. rewrite drop_0, <- list_fmap_compose. by apply list_fmap_ext.
Qed.

(** X20: From the selector to the table: the id column of the tabular output
    of the selected rows has no value twice. *)
Theorem tabular_ids_duplicate_free (toNumber : string → JsNumber.t)
    (pre : list FetchResult) :
  NoDup (idColumn (resultsAuthor (resultsAuthorStream toNumber pre))).
Proof.
  assert (idColumn (resultsAuthor (resultsAuthorStream toNumber pre))
          = Some <$> (ResolvedAuthor.id <$> resultsAuthorStream toNumber pre)) as ->.
  { destruct (resultsAuthorStream toNumber pre) as [|r rs]; [reflexivity|].
    unfold idColumn. rewrite tabular_lines. cbn [drop].
    rewrite drop_0, <- !list_fmap_compose. by apply list_fmap_ext. }
  apply NoDup_fmap_2; [apply _|]. apply flatMap_select_ids.
Qed.

(** ** Runs, continued *)

Lemma cachingAuthor_length (s : list FetchResult) :
  length (cachingAuthor s) ≤ length s.
Proof.
  unfold cachingAuthor. induction s as [|r s IH]; [done|].
  cbn [mbind list_bind]. rewrite length_app, sinkWrite_cases.
  destruct (isCachedOf r); cbn [length]; lia.
Qed.

(** X21: A run gives at most one row and at most one archive file per
    non-blank line, and the rows come in the order of the lines: their
    indices are a sub-sequence of the indices of the records. *)
Theorem run_output_bounded
    (readCacheFile search : string → Completion ScopusSearchResponseBody)
    (toNumber : string → JsNumber.t) (lines : list string) :
  ∃ qs out,
    inputStream lines = Some qs
    ∧ run readCacheFile search toNumber lines = Some out
    ∧ length qs = length (nonBlankLines lines)
    ∧ ResolvedAuthor.index <$> resolved out `sublist_of` index <$> qs
    ∧ length (resolved out) ≤ length qs
    ∧ length (archived out) ≤ length qs.
Proof.
  destruct (run_returns readCacheFile search toNumber lines) as (qs & Hqs & Hrun).
  eexists qs, _. split; [done|]. split; [exact Hrun|]. cbn [resolved archived].
  assert (length (authorStream readCacheFile search qs) = length qs) as Hlen.
  { unfold authorStream, Stream.map. apply length_fmap. }
  split.
  { unfold inputStream in Hqs. fold (nonBlankLines lines) in Hqs.
    destruct (mapStateful_normalize (nonBlankLines lines) 1) as (qs' & Hqs' & Hl & _).
    congruence. }
  unfold resultsAuthorStream.
  destruct (selectFrom_trace toNumber (authorStream readCacheFile search qs) ∅)
    as (chosen & Hsub & -> & _).
  assert (ResolvedAuthor.index <$> (rowOf <$> chosen) = (index ∘ queryOf) <$> chosen.*1) as Hidx.
  { rewrite <- !list_fmap_compose. by apply list_fmap_ext. }
  assert (index <$> qs = (index ∘ queryOf) <$> authorStream readCacheFile search qs)
    as Hqidx.
  { unfold authorStream, Stream.map. rewrite <- list_fmap_compose.
    apply list_fmap_ext. intros i q _. cbn. by rewrite fetch_keeps_record. }
  split; [|split].
  - rewrite Hidx, Hqidx. by apply fmap_sublist.
  - rewrite length_fmap, <- Hlen, <- (length_fmap fst chosen).
    by apply sublist_length.
  - rewrite <- Hlen. apply cachingAuthor_length.
Qed.

(** ** Names and commas *)

Lemma split_pieces_no_sep (sep : ascii) (s : string) :
  Forall (λ p, includesChar sep p = false) (Js.split sep s).
Proof.
  induction s as [|c r IH]; [by repeat constructor|].
  cbn [Js.split]. destruct (Ascii.eqb c sep) eqn:Hc; [by constructor|].
  destruct (Js.split sep r) as [|p ps].
  { constructor; [|done]. cbn [includesChar]. by rewrite Hc. }
  apply Forall_cons in IH as [Hp Hps]. constructor; [|done].
  cbn [includesChar]. by rewrite Hc, Hp.
Qed.

Lemma includesChar_trimStart (c : ascii) (s : string) :
  includesChar c s = false → includesChar c (Js.trimStart s) = false.
Proof.
  induction s as [|x r IH]; [done|]. cbn [Js.trimStart].
  destruct (Js.isWhiteSpace x); [|done].
  cbn [includesChar]. intros [_ Hr]%orb_false_elim. by apply IH.
Qed.

Lemma includesChar_trimEnd (c : ascii) (s : string) :
  includesChar c s = false → includesChar c (Js.trimEnd s) = false.
Proof.
  induction s as [|x r IH]; [done|]. cbn [includesChar Js.trimEnd].
  intros [Hx Hr]%orb_false_elim. specialize (IH Hr).
  destruct (Js.trimEnd r) as [|y r'].
  - destruct (Js.isWhiteSpace x); [done|]. cbn [includesChar]. by rewrite Hx.
  - cbn [includesChar] in *. by rewrite Hx, IH.
Qed.

Lemma includesChar_trim (c : ascii) (s : string) :
  includesChar c s = false → includesChar c (Js.trim s) = false.
Proof. intros H. by apply includesChar_trimEnd, includesChar_trimStart. Qed.

Lemma split_singleton_iff (sep : ascii) (s : string) :
  Js.split sep s !! 1%nat = None ↔ includesChar sep s = false.
Proof.
  split.
  - destruct (includesChar sep s) eqn:Hc; [|done].
    destruct (includesChar_cut _ _ Hc) as (p & r & Hp & ->).
    rewrite (split_app_sep _ _ _ Hp).
    by destruct (split_cons sep r) as (a & b & ->).
  - intros Hc. by rewrite (split_no_sep _ _ Hc).
Qed.

(** X6: The name is cut at its commas, of which only the first counts: the
    last name is what stands before the first comma, the first name what
    stands between the first comma and the second (or the end), both
    trimmed, so neither holds a comma.  A record has no first name exactly
    when its name has no comma, and then the last name is the whole
    name. *)
Theorem names_cut_at_commas (lines : list string) (qs : list QueryRecord)
    (q : QueryRecord) :
  inputStream lines = Some qs → q ∈ qs →
  (∃ l, lastName q = Some l ∧ includesChar "," l = false)
  ∧ (∀ f, firstName q = Some f → includesChar "," f = false)
  ∧ (firstName q = None ↔ includesChar "," (name q) = false)
  ∧ (firstName q = None → lastName q = Some (name q)).
Proof.
  intros Hrun Hq.
  destruct (inputStream_elem _ _ _ Hrun Hq) as (count & count' & value & _ & Hn).
  apply normalize_fields in Hn as (Hname & Hlast & Hfirst & _).
  assert (Js.trim (name q) = name q) as Htrim.
  { destruct (Js.split Js.TAB value !! 0%nat) as [col|]; [|done].
    cbn in Hname. injection Hname as ->. apply trim_idemp. }
  unfold Js.splitLimit in Hlast, Hfirst.
  pose proof (split_pieces_no_sep "," (name q)) as Hpieces.
  pose proof (split_singleton_iff "," (name q)) as Hone.
  destruct (Js.split "," (name q)) as [|a rest] eqn:Hsplit.
  { destruct (split_cons "," (name q)) as (? & ? & ?). congruence. }
  apply Forall_cons in Hpieces as [Ha Hrest].
  cbn in Hlast. split; [|split; [|split]].
  - exists (Js.trim a). split; [done|]. by apply includesChar_trim.
  - intros f Hf. rewrite Hf in Hfirst. destruct rest as [|b rest']; [done|].
    cbn in Hfirst. injection Hfirst as ->.
    apply Forall_cons in Hrest as [Hb _]. by apply includesChar_trim.
  - rewrite <- Hone, Hfirst. destruct rest as [|b rest']; cbn; done.
  - intros Hnone. rewrite Hnone in Hfirst.
    destruct rest as [|b rest']; [|done].
    assert (includesChar "," (name q) = false) as Hc by by apply Hone.
    rewrite (split_no_sep _ _ Hc) in Hsplit. injection Hsplit as <-.
    by rewrite Hlast, Htrim.
Qed.

Lemma names_cut_at_commas_witness :
  (∃ l, lastName Sample.smithJ = Some l ∧ includesChar "," l = false)
  ∧ (∀ f, firstName Sample.smithJ = Some f → includesChar "," f = false)
  ∧ (firstName Sample.smithJ = None ↔ includesChar "," (name Sample.smithJ) = false)
  ∧ (firstName Sample.smithJ = None → lastName Sample.smithJ = Some (name Sample.smithJ)).
Proof.
  apply (names_cut_at_commas [Sample.smithLine] [Sample.smithJ]).
  - vm_compute. reflexivity.
  - apply list_elem_of_singleton. reflexivity.
Defined.

(** ** From the Fetch Stage to the archive *)

(** X10: What the sink does with the result of a fetch.  A Failure is always
    written, under its [error-] name, as a document with the name
    [Error], the message and a cause that starts with the query string.  A
    Success is written to the cache path of its name unless it came from
    the cache. *)
Theorem fetch_then_archive
    (readCacheFile search : string → Completion ScopusSearchResponseBody)
    (q : QueryRecord) :
  match fetch readCacheFile search q with
  | FetchedError _ _ body =>
      ∃ rest,
        sinkWrite (fetch readCacheFile search q)
        = [ {| fw_path :=
                 getOuput (("error-" +:+ indexPrefixOf (index q) +:+ "-")
                           +:+ (if String.eqb (name q) EmptyString
                                then indexPrefixOf (index q) else name q));
               fw_data :=
                 DocValue (Obj [ ("name", Str "Error");
                                 ("message", Str (message body));
                                 ("cause", Obj (("query", Str (buildQuery q)) :: rest)) ]) |} ]
  | FetchedResult _ isCached body =>
      sinkWrite (fetch readCacheFile search q)
      = if isCached then []
        else [ {| fw_path := getCache (name q); fw_data := DocBody body |} ]
  end.
Proof.
  pose proof (fetch_cases readCacheFile search q) as Hcases.
  rewrite sinkWrite_cases.
  destruct (fetch readCacheFile search q) as [q' c body|q' c body].
  - destruct Hcases as (-> & Hname & _). cbn [isCachedOf].
    destruct c; [done|]. unfold archiveName. cbn [isErrorType queryOf archiveDocument].
    by destruct (String.eqb_spec (name q) EmptyString).
  - destruct Hcases as (-> & -> & err & -> & _). cbn [isCachedOf].
    destruct (wrapError_cause readCacheFile search (buildQuery q) err)
      as (rest & Hcause & _).
    exists rest. unfold archiveName, archiveDocument.
    cbn [isErrorType queryOf]. by rewrite Hcause.
Qed.
